(** * Workflow execution engine: a shallow embedding of
      backend/src/services/ExecutionService.ts and
      backend/src/utils/validation.ts (validateFlowStructure).

    Conventions of the embedding.
    - JavaScript values of type [any] are the inductive [jsany]; numbers that
      the engine handles are integers, kept in [Z].
    - A thrown exception is the [Throw] branch of [Result]; mutations made
      before a throw persist, as in JavaScript.
    - The SQLite tables behind [runQuery]/[getRow] are an in-memory store:
      [executions] (one row per execution id) and the append-only
      [execution_logs]. An INSERT fails on a primary-key clash and when it
      leaves a NOT NULL column that has no DEFAULT without a value; other
      storage failures are outside the model. Log row ids and the ISO
      timestamp columns (started_at, completed_at, created_at, timestamp) are
      omitted; a JSON text column is kept as the value whose
      [JSON.stringify] it holds, and is NULL where that value is [undefined],
      whose [JSON.stringify] is [undefined] and no text.
    - [Date.now()] reads a clock oracle: the n-th reading is [clock n].
    - The [while] loop of executeNodes takes fuel, one unit per iteration;
      [Running] is the outcome of a loop that is still iterating when the fuel
      is spent, and holds the loop's variables at the top of the next
      iteration, from where [traverse] can be resumed.
    - Tasks interleave at awaits only. executeFlowAsync is cut into phases at
      its awaits, and the steps of another request (cancelExecution) can be
      placed between two phases or between two iterations of the loop. *)

From stdpp Require Import gmap strings list fin_maps.
From Stdlib Require Import ZArith Lia.

Open Scope string_scope.
Local Set Warnings "-register-all,-clear-no-such-hyp".

(** ** Values and errors *)

Inductive jsany :=
| VUndefined
| VNull
| VBool (b : bool)
| VNum (z : Z)
| VStr (s : string)
| VArr (items : list jsany)
| VObj (fields : list (string * jsany)).

(** JavaScript truthiness, as used by [!condition] and [x || y]. *)
Definition truthy (v : jsany) : bool :=
  match v with
  | VUndefined | VNull => false
  | VBool b => b
  | VNum z => negb (z =? 0)%Z
  | VStr s => negb (String.eqb s "")
  | VArr _ | VObj _ => true
  end.

(** types/index.ts: class ApiError extends Error, and the plain errors the
    engine throws. *)
Inductive JsError :=
| ApiError (statusCode : Z) (code : string) (message : string)
| Error (message : string)
| TypeError (message : string).

Definition error_message (e : JsError) : string :=
  match e with
  | ApiError _ _ m => m
  | Error m => m
  | TypeError m => m
  end.

Definition badRequest (message : string) : JsError := ApiError 400 "BAD_REQUEST" message.
Definition notFound (message : string) : JsError := ApiError 404 "NOT_FOUND" message.
Definition internal (message : string) : JsError := ApiError 500 "INTERNAL_ERROR" message.

Inductive Result (A : Type) :=
| Ok (a : A)
| Throw (e : JsError).
Arguments Ok {A} a.
Arguments Throw {A} e.

(** Template-literal rendering of a field that is a string or missing. *)
Definition show (o : option string) : string :=
  match o with
  | Some s => s
  | None => "undefined"
  end.

(** ** Flow data model (types/index.ts of the backend) *)

(** The fields of [node.config] that the executors destructure. A missing
    field reads as [VUndefined] / [None]. *)
Record NodeConfig := {
  condition : jsany;
  actionType : option string;
  operation : option string;
  variableName : option string;
  value : jsany
}.

(** [node.config || {}] followed by a destructuring. *)
Definition emptyConfig : NodeConfig :=
  {| condition := VUndefined; actionType := None; operation := None;
     variableName := None; value := VUndefined |}.

Record FlowNode := {
  node_id : string;
  node_type : string;
  node_name : string;
  node_config : option NodeConfig
}.

Definition config_of (node : FlowNode) : NodeConfig :=
  match node_config node with
  | Some c => c
  | None => emptyConfig
  end.

Record FlowConnection := {
  sourceNodeId : string;
  targetNodeId : string;
  sourceHandle : option string
}.

Record FlowVariable := {
  var_name : string;
  defaultValue : jsany
}.

(** [flow.variables] is iterated with [forEach]: that works on an array and
    is a TypeError on anything else (the stored default is the object {}). *)
Inductive FlowVariables :=
| VarsArray (vs : list FlowVariable)
| VarsRecord (fields : list (string * jsany)).

Record Flow := {
  flow_id : string;
  flow_name : string;
  flow_status : string;
  nodes : list FlowNode;
  connections : list FlowConnection;
  variables : FlowVariables
}.

(** ** Execution context and node results *)

Record ExecutionContext := {
  executionId : string;
  flowId : string;
  ctx_variables : gmap (option string) jsany;
  inputData : jsany;
  outputData : jsany;
  currentNodeId : string;
  executionPath : list string;
  startTime : Z
}.

Record NodeExecutionResult := {
  nodeId : string;
  success : bool;
  status : string;
  res_inputData : jsany;
  res_outputData : jsany;
  executionTime : Z;
  error : option string;
  nextNodeIds : list string
}.

(** ** The store *)

Record ExecutionRow := {
  row_flow_id : string;
  row_status : string;
  input_data : jsany;
  output_data : option jsany;
  error_message_col : option string;
  duration : option Z
}.

Record LogRow := {
  log_execution_id : string;
  log_node_id : string;
  level : string;
  message : string;
  data : jsany
}.

(** [flows] is what FlowService.getFlowById returns per flow id;
    [activeExecutions] is the key set of the registry Map, whose values are
    never read. *)
Record World := {
  flows : gmap string Flow;
  executions : gmap string ExecutionRow;
  execution_logs : list LogRow;
  activeExecutions : gset string;
  clock : nat -> Z;
  reads : nat
}.

Definition dateNow (w : World) : Z * World :=
  (clock w (reads w),
   {| flows := flows w; executions := executions w;
      execution_logs := execution_logs w;
      activeExecutions := activeExecutions w;
      clock := clock w; reads := S (reads w) |}).

Definition set_executions (f : gmap string ExecutionRow -> gmap string ExecutionRow)
    (w : World) : World :=
  {| flows := flows w; executions := f (executions w);
     execution_logs := execution_logs w;
     activeExecutions := activeExecutions w;
     clock := clock w; reads := reads w |}.

Definition set_active (f : gset string -> gset string) (w : World) : World :=
  {| flows := flows w; executions := executions w;
     execution_logs := execution_logs w;
     activeExecutions := f (activeExecutions w);
     clock := clock w; reads := reads w |}.

(** addExecutionLog: INSERT INTO execution_logs; [data || {}]. *)
Definition addExecutionLog (executionId nodeId level message : string)
    (data : option jsany) (w : World) : World :=
  {| flows := flows w; executions := executions w;
     execution_logs :=
       app (execution_logs w)
       [ {| log_execution_id := executionId; log_node_id := nodeId;
            level := level; message := message;
            data := match data with Some d => d | None => VObj [] end |} ];
     activeExecutions := activeExecutions w;
     clock := clock w; reads := reads w |}.

(** updateExecutionStatus: UPDATE executions SET status = ? WHERE id = ?.
    No row with that id: nothing changes. *)
Definition with_status (s : string) (r : ExecutionRow) : ExecutionRow :=
  {| row_flow_id := row_flow_id r; row_status := s;
     input_data := input_data r; output_data := output_data r;
     error_message_col := error_message_col r; duration := duration r |}.

Definition updateExecutionStatus (id status : string) (w : World) : World :=
  set_executions (alter (with_status status) id) w.

(** ** Node executors *)

Definition with_variables (vars : gmap (option string) jsany)
    (c : ExecutionContext) : ExecutionContext :=
  {| executionId := executionId c; flowId := flowId c; ctx_variables := vars;
     inputData := inputData c; outputData := outputData c;
     currentNodeId := currentNodeId c; executionPath := executionPath c;
     startTime := startTime c |}.

Definition with_outputData (out : jsany) (c : ExecutionContext) : ExecutionContext :=
  {| executionId := executionId c; flowId := flowId c;
     ctx_variables := ctx_variables c;
     inputData := inputData c; outputData := out;
     currentNodeId := currentNodeId c; executionPath := executionPath c;
     startTime := startTime c |}.

Definition visit (id : string) (c : ExecutionContext) : ExecutionContext :=
  {| executionId := executionId c; flowId := flowId c;
     ctx_variables := ctx_variables c;
     inputData := inputData c; outputData := outputData c;
     currentNodeId := id; executionPath := app (executionPath c) [id];
     startTime := startTime c |}.

Definition Exec (A : Type) : Type := ExecutionContext -> Result A * ExecutionContext.

Definition executeConditionNode (node : FlowNode) (input : jsany) : Exec jsany :=
  fun ctx =>
    if truthy (condition (config_of node))
    then (Ok input, ctx)
    else (Throw (Error "Condition node missing condition configuration"), ctx).

Definition executeHttpRequest (input : jsany) : jsany := input.
Definition executeDataTransform (input : jsany) : jsany := input.

(** [case 'lit':] of a [switch] over a field that may be missing. *)
Definition is_case (o : option string) (lit : string) : bool :=
  match o with
  | Some s => String.eqb s lit
  | None => false
  end.

Definition executeActionNode (node : FlowNode) (input : jsany) : Exec jsany :=
  fun ctx =>
    let actionType := actionType (config_of node) in
    if is_case actionType "http_request" then (Ok (executeHttpRequest input), ctx)
    else if is_case actionType "data_transform" then (Ok (executeDataTransform input), ctx)
    else (Throw (Error ("Unsupported action type: " ++ show actionType)), ctx).

(** The timer wait changes no data; the time it takes shows only in the
    clock readings. *)
Definition executeDelayNode (node : FlowNode) (input : jsany) : Exec jsany :=
  fun ctx => (Ok input, ctx).

(** [Map.prototype.get] of a missing key is [undefined]. *)
Definition map_get (vars : gmap (option string) jsany) (k : option string) : jsany :=
  match vars !! k with
  | Some v => v
  | None => VUndefined
  end.

Definition executeVariableNode (node : FlowNode) (input : jsany) : Exec jsany :=
  fun ctx =>
    let cfg := config_of node in
    if is_case (operation cfg) "set" then
      (Ok input,
       with_variables (<[variableName cfg := value cfg]> (ctx_variables ctx)) ctx)
    else if is_case (operation cfg) "get" then
      (Ok (map_get (ctx_variables ctx) (variableName cfg)), ctx)
    else
      (Throw (Error ("Unsupported variable operation: " ++ show (operation cfg))), ctx).

(** The [switch (node.type)] inside the [try] of executeNode. *)
Definition dispatch (node : FlowNode) (input : jsany) : Exec jsany :=
  fun ctx =>
    let type := node_type node in
    if String.eqb type "start" then (Ok (inputData ctx), ctx)
    else if String.eqb type "end" then (Ok input, with_outputData input ctx)
    else if String.eqb type "condition" then executeConditionNode node input ctx
    else if String.eqb type "action" then executeActionNode node input ctx
    else if String.eqb type "delay" then executeDelayNode node input ctx
    else if String.eqb type "variable" then executeVariableNode node input ctx
    else (Throw (Error ("Unsupported node type: " ++ type)), ctx).

Definition executeNode (node : FlowNode) (ctx : ExecutionContext) (input : jsany)
    (w : World) : Result NodeExecutionResult * ExecutionContext * World :=
  let (t0, w0) := dateNow w in
  match dispatch node input ctx with
  | (Ok out, ctx') =>
      let (t1, w1) := dateNow w0 in
      (Ok {| nodeId := node_id node; success := true; status := "completed";
             res_inputData := input; res_outputData := out;
             executionTime := (t1 - t0)%Z; error := None;
             nextNodeIds := [] |}, ctx', w1)
  | (Throw e, ctx') =>
      let (t1, w1) := dateNow w0 in
      (Ok {| nodeId := node_id node; success := false; status := "failed";
             res_inputData := input; res_outputData := VNull;
             executionTime := (t1 - t0)%Z; error := Some (error_message e);
             nextNodeIds := [] |}, ctx', w1)
  end.

(** ** Traversal *)

Definition findNode (flow : Flow) (id : string) : option FlowNode :=
  List.find (fun node => String.eqb (node_id node) id) (nodes flow).

(** getNextNode. The [data] argument and every [sourceHandle] are unused in
    the source as well. *)
Definition getNextNode (flow : Flow) (currentNode : FlowNode) (data : jsany)
    : option FlowNode :=
  let conns :=
    List.filter (fun conn => String.eqb (sourceNodeId conn) (node_id currentNode))
                (connections flow) in
  match conns with
  | [] => None
  | [conn] => findNode flow (targetNodeId conn)
  | conn :: _ => findNode flow (targetNodeId conn)
  end.

Inductive Outcome :=
| Finished (r : Result jsany) (ctx : ExecutionContext) (w : World)
| Running (currentNode : FlowNode) (result : jsany) (ctx : ExecutionContext)
          (w : World).

(** The [while (currentNode)] loop of executeNodes. *)
Fixpoint traverse (fuel : nat) (flow : Flow) (currentNode : FlowNode)
    (result : jsany) (ctx : ExecutionContext) (w : World) : Outcome :=
  match fuel with
  | O => Running currentNode result ctx w
  | S fuel' =>
      let ctx1 := visit (node_id currentNode) ctx in
      let w1 :=
        addExecutionLog (executionId ctx1) (node_id currentNode) "info"
          ("Executing node: " ++ node_name currentNode)
          (Some (VObj [("nodeType", VStr (node_type currentNode))])) w in
      match executeNode currentNode ctx1 result w1 with
      | (Ok nodeResult, ctx2, w2) =>
          let result' := res_outputData nodeResult in
          let w3 :=
            addExecutionLog (executionId ctx2) (node_id currentNode) "info"
              "Node executed successfully"
              (Some (VObj [("outputData", result')])) w2 in
          if String.eqb (node_type currentNode) "end"
          then Finished (Ok result') ctx2 w3
          else
            match getNextNode flow currentNode result' with
            | Some next => traverse fuel' flow next result' ctx2 w3
            | None => Finished (Ok result') ctx2 w3
            end
      | (Throw e, ctx2, w2) =>
          let w3 :=
            addExecutionLog (executionId ctx2) (node_id currentNode) "error"
              ("Node execution failed: " ++ error_message e)
              (Some (VObj [("error", VStr (error_message e))])) w2 in
          Finished (Throw e) ctx2 w3
      end
  end.

Definition executeNodes (fuel : nat) (flow : Flow) (ctx : ExecutionContext)
    (w : World) : Outcome :=
  match List.find (fun node => String.eqb (node_type node) "start") (nodes flow) with
  | None => Finished (Throw (Error "No start node found in flow")) ctx w
  | Some startNode => traverse fuel flow startNode (inputData ctx) ctx w
  end.

(** ** executeFlowAsync, split at its awaits into three phases *)

Definition seedVariables (vs : list FlowVariable) : gmap (option string) jsany :=
  fold_left (fun m v => <[Some (var_name v) := defaultValue v]> m) vs ∅.

(** Everything up to and including the "Flow execution started" log line.
    A [flow.variables] that is not an array makes [forEach] throw before the
    [try] is entered: the promise rejects and nothing is written. *)
Definition asyncBegin (executionId : string) (flow : Flow) (inputData : jsany)
    (w : World) : Result ExecutionContext * World :=
  let (now, w0) := dateNow w in
  match variables flow with
  | VarsRecord _ => (Throw (TypeError "flow.variables.forEach is not a function"), w0)
  | VarsArray vs =>
      let context :=
        {| executionId := executionId; flowId := flow_id flow;
           ctx_variables := seedVariables vs;
           inputData := inputData; outputData := VObj [];
           currentNodeId := ""; executionPath := []; startTime := now |} in
      let w1 := updateExecutionStatus executionId "running" w0 in
      let w2 := set_active (fun s => {[executionId]} ∪ s) w1 in
      let w3 :=
        addExecutionLog executionId "system" "info" "Flow execution started"
          (Some (VObj [("flowId", VStr (flow_id flow));
                       ("flowName", VStr (flow_name flow));
                       ("inputData", inputData)])) w2 in
      (Ok context, w3)
  end.

(** A JSON text column bound to [JSON.stringify(v)]. For [undefined] that is
    [undefined] itself, which the driver binds as NULL. *)
Definition jsonColumn (v : jsany) : option jsany :=
  match v with
  | VUndefined => None
  | _ => Some v
  end.

(** [SET status = ?, output_data = ?, completed_at = ?, duration = ?] with
    'completed' and [JSON.stringify(result)]. *)
Definition completeRow (result : jsany) (d : Z) (r : ExecutionRow) : ExecutionRow :=
  {| row_flow_id := row_flow_id r; row_status := "completed";
     input_data := input_data r; output_data := jsonColumn result;
     error_message_col := error_message_col r; duration := Some d |}.

Definition failRow (msg : string) (d : Z) (r : ExecutionRow) : ExecutionRow :=
  {| row_flow_id := row_flow_id r; row_status := "failed";
     input_data := input_data r; output_data := output_data r;
     error_message_col := Some msg; duration := Some d |}.

(** What follows [await this.executeNodes(...)]: the rest of the [try], or
    the [catch], and then the [finally]. *)
Definition asyncSettle (r : Result jsany) (ctx : ExecutionContext) (w : World) : World :=
  let id := executionId ctx in
  let (now, w0) := dateNow w in
  let d := (now - startTime ctx)%Z in
  let w2 :=
    match r with
    | Ok result =>
        let w1 := set_executions (alter (completeRow result d) id) w0 in
        addExecutionLog id "system" "info" "Flow execution completed"
          (Some (VObj [("duration", VNum d); ("outputData", result)])) w1
    | Throw e =>
        let w1 := set_executions (alter (failRow (error_message e) d) id) w0 in
        addExecutionLog id "system" "error" "Flow execution failed"
          (Some (VObj [("error", VStr (error_message e)); ("duration", VNum d)])) w1
    end in
  set_active (fun s => s ∖ {[id]}) w2.

Inductive AsyncOutcome :=
| Settled (w : World)
| Rejected (e : JsError) (w : World)
| Unsettled (ctx : ExecutionContext) (w : World).

Definition executeFlowAsync (fuel : nat) (executionId : string) (flow : Flow)
    (inputData : jsany) (w : World) : AsyncOutcome :=
  match asyncBegin executionId flow inputData w with
  | (Throw e, w') => Rejected e w'
  | (Ok context, w') =>
      match executeNodes fuel flow context w' with
      | Finished r ctx' w'' => Settled (asyncSettle r ctx' w'')
      | Running _ _ ctx' w'' => Unsettled ctx' w''
      end
  end.

(** ** Supervisor entry points *)

Record ExecuteFlowRequest := {
  req_flowId : string;
  req_inputData : jsany
}.

Record ExecuteFlowResponse := {
  resp_executionId : string;
  resp_status : string
}.

(** The call [this.executeFlowAsync(executionId, flow, inputData)] that
    executeFlow makes without awaiting it. *)
Record Task := {
  task_executionId : string;
  task_flow : Flow;
  task_inputData : jsany
}.

(** The columns that an INSERT INTO executions names, with the values bound
    to them; [None] is a column that the statement leaves out. Of the two
    timestamp columns, whose values the store does not keep, only whether the
    statement names them is recorded. *)
Record ExecutionInsert := {
  ins_id : string;
  ins_flow_id : option string;
  ins_status : option string;
  ins_input_data : option jsany;
  ins_started_at : bool;
  ins_created_at : bool
}.

(** INSERT INTO executions against the schema of database/index.ts:
    flow_id and created_at are NOT NULL and have no DEFAULT; status and
    input_data default to 'pending' and '{}'; id is the primary key. The
    foreign key on flow_id is not looked at: executeFlow, the one place that
    inserts, has just read that flow. *)
Definition insertExecution (v : ExecutionInsert) (w : World) : Result World :=
  match ins_flow_id v with
  | None =>
      Throw (Error "SQLITE_CONSTRAINT: NOT NULL constraint failed: executions.flow_id")
  | Some flow_id =>
      if negb (ins_created_at v)
      then Throw (Error "SQLITE_CONSTRAINT: NOT NULL constraint failed: executions.created_at")
      else
        match executions w !! ins_id v with
        | Some _ =>
            Throw (Error "SQLITE_CONSTRAINT: UNIQUE constraint failed: executions.id")
        | None =>
            let row :=
              {| row_flow_id := flow_id;
                 row_status := match ins_status v with Some s => s | None => "pending" end;
                 input_data := match ins_input_data v with Some d => d | None => VObj [] end;
                 output_data := None; error_message_col := None; duration := None |} in
            Ok (set_executions (insert (ins_id v) row) w)
        end
  end.

(** executeFlow. [uuid] is the value of [uuidv4()]. The INSERT names id,
    flow_id, status, input_data and started_at; whatever makes it fail, the
    [catch] throws an internal error with a fixed message. *)
Definition executeFlow (request : ExecuteFlowRequest) (uuid : string) (w : World)
    : Result ExecuteFlowResponse * World * option Task :=
  let inputData :=
    match req_inputData request with
    | VUndefined => VObj []
    | v => v
    end in
  match flows w !! req_flowId request with
  | None => (Throw (notFound "Flow not found"), w, None)
  | Some flow =>
      if negb (String.eqb (flow_status flow) "published")
      then (Throw (badRequest "Only published flows can be executed"), w, None)
      else
        match insertExecution
                {| ins_id := uuid; ins_flow_id := Some (req_flowId request);
                   ins_status := Some "pending"; ins_input_data := Some inputData;
                   ins_started_at := true; ins_created_at := false |} w with
        | Throw _ => (Throw (internal "Failed to start execution"), w, None)
        | Ok w' =>
            (Ok {| resp_executionId := uuid; resp_status := "pending" |},
             w',
             Some {| task_executionId := uuid; task_flow := flow;
                     task_inputData := inputData |})
        end
  end.

(** getExecutionById, as far as the engine uses it: the row or NotFound. *)
Definition getExecutionById (id : string) (w : World) : Result ExecutionRow :=
  match executions w !! id with
  | Some row => Ok row
  | None => Throw (notFound "Execution not found")
  end.

Definition cancelExecution (id : string) (w : World) : Result ExecutionRow * World :=
  match getExecutionById id w with
  | Throw e => (Throw e, w)
  | Ok execution =>
      if negb (String.eqb (row_status execution) "pending")
         && negb (String.eqb (row_status execution) "running")
      then (Throw (badRequest "Execution cannot be cancelled"), w)
      else
        let w1 := updateExecutionStatus id "cancelled" w in
        let w2 := set_active (fun s => s ∖ {[id]}) w1 in
        let w3 :=
          addExecutionLog id "system" "info" "Execution cancelled by user" None w2 in
        (getExecutionById id w3, w3)
  end.

(** ** utils/validation.ts: validateFlowStructure *)

(** The insertion-ordered [Map<string, string[]>] of hasCircularDependency. *)
Fixpoint graph_set (k : string) (v : list string) (g : list (string * list string))
    : list (string * list string) :=
  match g with
  | [] => [(k, v)]
  | (k', v') :: g' =>
      if String.eqb k' k then (k, v) :: g' else (k', v') :: graph_set k v g'
  end.

Definition graph_get (k : string) (g : list (string * list string))
    : option (list string) :=
  match List.find (fun entry => String.eqb (fst entry) k) g with
  | Some entry => Some (snd entry)
  | None => None
  end.

(** [graph.get(id) || []] *)
Definition neighborsOf (k : string) (g : list (string * list string)) : list string :=
  match graph_get k g with
  | Some targets => targets
  | None => []
  end.

Definition buildGraph (nodes : list FlowNode) (connections : list FlowConnection)
    : list (string * list string) :=
  let g0 := fold_left (fun g node => graph_set (node_id node) [] g) nodes [] in
  fold_left
    (fun g connection =>
       graph_set (sourceNodeId connection)
                 (app (neighborsOf (sourceNodeId connection) g) [targetNodeId connection]) g)
    connections g0.

Record DfsState := {
  visited : gset string;
  recursionStack : gset string
}.

(** The [for (const neighbor of neighbors)] loop inside dfs. *)
Fixpoint forNeighbors (dfs : string -> DfsState -> option (bool * DfsState))
    (neighbors : list string) (st : DfsState) : option (bool * DfsState) :=
  match neighbors with
  | [] => Some (false, st)
  | neighbor :: rest =>
      match dfs neighbor st with
      | None => None
      | Some (true, st') => Some (true, st')
      | Some (false, st') => forNeighbors dfs rest st'
      end
  end.

(** dfs, with fuel for the recursion depth; [None] is fuel spent. *)
Fixpoint dfs (fuel : nat) (graph : list (string * list string)) (nodeId : string)
    (st : DfsState) : option (bool * DfsState) :=
  match fuel with
  | O => None
  | S fuel' =>
      if decide (nodeId ∈ recursionStack st) then Some (true, st)
      else if decide (nodeId ∈ visited st) then Some (false, st)
      else
        let st1 := {| visited := {[nodeId]} ∪ visited st;
                      recursionStack := {[nodeId]} ∪ recursionStack st |} in
        match forNeighbors (dfs fuel' graph) (neighborsOf nodeId graph) st1 with
        | None => None
        | Some (true, st2) => Some (true, st2)
        | Some (false, st2) =>
            Some (false, {| visited := visited st2;
                            recursionStack := recursionStack st2 ∖ {[nodeId]} |})
        end
  end.

(** The [for (const nodeId of graph.keys())] loop. *)
Fixpoint forKeys (dfs : string -> DfsState -> option (bool * DfsState))
    (keys : list string) (st : DfsState) : option bool :=
  match keys with
  | [] => Some false
  | nodeId :: rest =>
      if decide (nodeId ∈ visited st) then forKeys dfs rest st
      else
        match dfs nodeId st with
        | None => None
        | Some (true, _) => Some true
        | Some (false, st') => forKeys dfs rest st'
        end
  end.

(** Every id that dfs can be called on: the keys and all the targets. *)
Definition graphIds (g : list (string * list string)) : list string :=
  app (map fst g) (concat (map snd g)).

Definition hasCircularDependency (nodes : list FlowNode)
    (connections : list FlowConnection) : option bool :=
  let graph := buildGraph nodes connections in
  forKeys (dfs (S (length (graphIds graph))) graph) (map fst graph)
          {| visited := ∅; recursionStack := ∅ |}.

Record ValidationResult := {
  isValid : bool;
  errors : list string
}.

Definition hasNode (nodes : list FlowNode) (id : string) : bool :=
  existsb (fun node => String.eqb (node_id node) id) nodes.

Definition startErrors (nodes : list FlowNode) : list string :=
  let startNodes := List.filter (fun node => String.eqb (node_type node) "start") nodes in
  if Nat.eqb (length startNodes) 0 then ["Flow must have at least one start node"]
  else if Nat.ltb 1 (length startNodes) then ["Flow can only have one start node"]
  else [].

Definition endErrors (nodes : list FlowNode) : list string :=
  let endNodes := List.filter (fun node => String.eqb (node_type node) "end") nodes in
  if Nat.eqb (length endNodes) 0 then ["Flow must have at least one end node"] else [].

Definition idErrors (nodes : list FlowNode) : list string :=
  let nodeIds := map node_id nodes in
  let uniqueNodeIds : gset string := list_to_set nodeIds in
  if negb (Nat.eqb (length nodeIds) (size uniqueNodeIds))
  then ["Node IDs must be unique"] else [].

Definition connectionErrors (nodes : list FlowNode) (connection : FlowConnection)
    : list string :=
  app
    (if hasNode nodes (sourceNodeId connection) then []
     else ["Connection source node " ++ sourceNodeId connection ++ " does not exist"])
    (if hasNode nodes (targetNodeId connection) then []
     else ["Connection target node " ++ targetNodeId connection ++ " does not exist"]).

Definition validateFlowStructure (nodes : list FlowNode)
    (connections : list FlowConnection) : option ValidationResult :=
  match hasCircularDependency nodes connections with
  | None => None
  | Some cyclic =>
      let errors :=
        (startErrors nodes ++ endErrors nodes ++ idErrors nodes
         ++ flat_map (connectionErrors nodes) connections
         ++ (if cyclic then ["Flow contains circular dependencies"] else []))%list in
      Some {| isValid := Nat.eqb (length errors) 0; errors := errors |}
  end.

(** ** Concrete inputs used by the examples *)

Definition world0 : World :=
  {| flows := ∅; executions := ∅; execution_logs := []; activeExecutions := ∅;
     clock := fun n => Z.of_nat n; reads := 0 |}.

Definition context0 (input : jsany) : ExecutionContext :=
  {| executionId := "x1"; flowId := "f1"; ctx_variables := ∅;
     inputData := input; outputData := VObj []; currentNodeId := "";
     executionPath := []; startTime := 0 |}.

Definition variableNode (op : string) : FlowNode :=
  {| node_id := "v"; node_type := "variable"; node_name := "counter";
     node_config :=
       Some {| condition := VUndefined; actionType := None;
               operation := Some op; variableName := Some "n";
               value := VNum 1 |} |}.

Definition contextWithN : ExecutionContext :=
  with_variables (<[Some "n" := VNum 1]> ∅) (context0 (VNum 7)).

Definition node (id type : string) (config : option NodeConfig) : FlowNode :=
  {| node_id := id; node_type := type; node_name := id; node_config := config |}.

Definition conn (source target : string) (handle : option string) : FlowConnection :=
  {| sourceNodeId := source; targetNodeId := target; sourceHandle := handle |}.

Definition actionConfig (type : string) : option NodeConfig :=
  Some {| condition := VUndefined; actionType := Some type; operation := None;
          variableName := None; value := VUndefined |}.

Definition conditionConfig (rule : jsany) : option NodeConfig :=
  Some {| condition := rule; actionType := None; operation := None;
          variableName := None; value := VUndefined |}.

Definition mkFlow (ns : list FlowNode) (cs : list FlowConnection) : Flow :=
  {| flow_id := "f1"; flow_name := "demo"; flow_status := "published";
     nodes := ns; connections := cs; variables := VarsArray [] |}.

Definition pendingRow : ExecutionRow :=
  {| row_flow_id := "f1"; row_status := "pending"; input_data := VObj [];
     output_data := None; error_message_col := None; duration := None |}.

(** A store that holds the pending execution x1 of flow f1. *)
Definition world1 : World :=
  set_executions (insert "x1" pendingRow) world0.

(** start -> action (an action type the engine does not support) -> end *)
Definition failingFlow : Flow :=
  mkFlow [node "s" "start" None; node "a" "action" (actionConfig "notification");
          node "e" "end" None]
         [conn "s" "a" None; conn "a" "e" None].

(** start -> a, a -> a, a -> end: the first connection out of a leads back to a *)
Definition cyclicFlow : Flow :=
  mkFlow [node "s" "start" None; node "a" "action" (actionConfig "http_request");
          node "e" "end" None]
         [conn "s" "a" None; conn "a" "a" None; conn "a" "e" None].

(** start -> a, and nothing leaves a *)
Definition deadEndFlow : Flow :=
  mkFlow [node "s" "start" None; node "a" "action" (actionConfig "http_request");
          node "e" "end" None]
         [conn "s" "a" None].

(** start -> v, where v reads the variable n, which nothing has set, and
    nothing leaves v *)
Definition deadEndGetFlow : Flow :=
  mkFlow [node "s" "start" None; variableNode "get"] [conn "s" "v" None].

(** The rule "input.x equals 5" / "input.x equals 6" as a condition config. *)
Definition ruleXEquals (n : Z) : jsany :=
  VObj [("operator", VStr "AND");
        ("rules", VArr [VObj [("field", VStr "input.x");
                              ("operator", VStr "equals");
                              ("value", VNum n)]])].

Definition conditionNode (n : Z) : FlowNode :=
  node "c" "condition" (conditionConfig (ruleXEquals n)).

(** A condition node with an unlabelled connection declared before the
    true and false branches. *)
Definition branchFlow (n : Z) : Flow :=
  mkFlow [node "s" "start" None; conditionNode n;
          node "x" "end" None; node "t" "end" None; node "f" "end" None]
         [conn "s" "c" None; conn "c" "x" None;
          conn "c" "t" (Some "true"); conn "c" "f" (Some "false")].

(** start -> delay -> end *)
Definition simpleFlow : Flow :=
  mkFlow [node "s" "start" None; node "d" "delay" None; node "e" "end" None]
         [conn "s" "d" None; conn "d" "e" None].

(** A published flow without any node. *)
Definition emptyFlow : Flow := mkFlow [] [].

(** A store that holds [emptyFlow] under the id f1 and no execution. *)
Definition worldWithEmptyFlow : World :=
  {| flows := {[ "f1" := emptyFlow ]}; executions := ∅; execution_logs := [];
     activeExecutions := ∅; clock := fun n => Z.of_nat n; reads := 0 |}.

(** The flow without any node, not published. *)
Definition draftEmptyFlow : Flow :=
  {| flow_id := "f1"; flow_name := "demo"; flow_status := "draft";
     nodes := []; connections := []; variables := VarsArray [] |}.

(** A store that holds [flow] under the id f1 and no execution. *)
Definition worldWithFlow (flow : Flow) : World :=
  {| flows := {[ "f1" := flow ]}; executions := ∅; execution_logs := [];
     activeExecutions := ∅; clock := fun n => Z.of_nat n; reads := 0 |}.

Definition completedRow : ExecutionRow :=
  {| row_flow_id := "f1"; row_status := "completed"; input_data := VObj [];
     output_data := Some (VObj []); error_message_col := None;
     duration := Some 3%Z |}.

(** ** Reading of the specification's branch selection, for comparison *)

Definition outgoingConnections (flow : Flow) (nodeId : string) : list FlowConnection :=
  List.filter (fun c => String.eqb (sourceNodeId c) nodeId) (connections flow).

(** The specification's selection for a condition node, written out from its
    words: keep the outgoing connections whose sourceHandle is the chosen
    branch; when none match, take the one matching defaultPath. *)
Definition spec_nextNode (flow : Flow) (current : FlowNode) (branch defaultPath : string)
    : option FlowNode :=
  let out := outgoingConnections flow (node_id current) in
  match List.filter (fun c => is_case (sourceHandle c) branch) out with
  | c :: _ => findNode flow (targetNodeId c)
  | [] =>
      match List.filter (fun c => is_case (sourceHandle c) defaultPath) out with
      | c :: _ => findNode flow (targetNodeId c)
      | [] => None
      end
  end.

(** ** The chain of nodes that the loop follows *)

(** Does following getNextNode from [node] reach an end node, or a node
    without a next node, within [fuel] nodes? *)
Fixpoint chainStops (fuel : nat) (flow : Flow) (current : FlowNode) : bool :=
  match fuel with
  | O => false
  | S fuel' =>
      if String.eqb (node_type current) "end" then true
      else
        match getNextNode flow current VUndefined with
        | Some next => chainStops fuel' flow next
        | None => true
        end
  end.

(** ** Auxiliary notions used in the statements *)

(** The six node types that executeNode's switch knows. *)
Definition knownType (t : string) : bool :=
  String.eqb t "start" || String.eqb t "end" || String.eqb t "condition"
  || String.eqb t "action" || String.eqb t "delay" || String.eqb t "variable".

(** A connection without its branch handle. *)
Definition endpoints (c : FlowConnection) : string * string :=
  (sourceNodeId c, targetNodeId c).

(** An outcome of the loop without the store: what was returned or thrown,
    or where the loop stands, and the context. *)
Inductive LoopView :=
| Returned (r : Result jsany) (ctx : ExecutionContext)
| Iterating (currentNode : FlowNode) (result : jsany) (ctx : ExecutionContext).

Definition outcomeView (o : Outcome) : LoopView :=
  match o with
  | Finished r ctx _ => Returned r ctx
  | Running currentNode result ctx _ => Iterating currentNode result ctx
  end.

(** [result = nodeResult.outputData] in terms of what the executor did. *)
Definition outputOf (r : Result jsany) : jsany :=
  match r with
  | Ok out => out
  | Throw _ => VNull
  end.

(** How many nodes have the given type. *)
Definition countType (type : string) (nodes : list FlowNode) : nat :=
  length (List.filter (fun node => String.eqb (node_type node) type) nodes).

(** Some connection leads from [x] to [y]. *)
Definition connected (connections : list FlowConnection) (x y : string) : Prop :=
  exists c, In c connections /\ sourceNodeId c = x /\ targetNodeId c = y.

(** The connections contain a cycle: a non-empty path from a node to itself. *)
Definition hasCycle (connections : list FlowConnection) : Prop :=
  exists x, tc (connected connections) x x.

(** [w'] has the executions table, registry and flows of [w]. *)
Definition sameStore (w w' : World) : Prop :=
  executions w' = executions w /\ activeExecutions w' = activeExecutions w
  /\ flows w' = flows w.

(** ** Further notions: paths *)

(** Consecutive ids of the list are joined by a connection. *)
Fixpoint isWalk (connections : list FlowConnection) (ids : list string) : Prop :=
  match ids with
  | a :: ((b :: _) as rest) => connected connections a b /\ isWalk connections rest
  | _ => True
  end.

(** ** Further notions: what a run leaves behind *)

(** The store as executeFlowAsync leaves it, whatever the outcome. *)
Definition outcomeWorld (o : AsyncOutcome) : World :=
  match o with
  | Settled w => w
  | Rejected _ w => w
  | Unsettled _ w => w
  end.

(** The node is a variable node that sets the variable [k]. *)
Definition setsVariable (n : FlowNode) (k : option string) : Prop :=
  node_type n = "variable" /\ operation (config_of n) = Some "set"
  /\ variableName (config_of n) = k.

(** Nodes whose executor succeeds and hands on the data it was given (a
    start node hands on the run's input). *)
Definition keepsData (n : FlowNode) : bool :=
  String.eqb (node_type n) "start" || String.eqb (node_type n) "end"
  || String.eqb (node_type n) "delay"
  || (String.eqb (node_type n) "condition" && truthy (condition (config_of n)))
  || (String.eqb (node_type n) "action"
      && (is_case (actionType (config_of n)) "http_request"
          || is_case (actionType (config_of n)) "data_transform"))
  || (String.eqb (node_type n) "variable" && is_case (operation (config_of n)) "set").

(** ** retryExecution *)

(** retryExecution: the stored execution's flow id and input data go to
    executeFlow again. *)
Definition retryExecution (id uuid : string) (w : World)
    : Result ExecuteFlowResponse * World * option Task :=
  match getExecutionById id w with
  | Throw e => (Throw e, w, None)
  | Ok execution =>
      executeFlow {| req_flowId := row_flow_id execution;
                     req_inputData := input_data execution |} uuid w
  end.

(** ** What the service does to the store between two requests *)

(** The store that the loop leaves. *)
Definition loopWorld (o : Outcome) : World :=
  match o with
  | Finished _ _ w => w
  | Running _ _ _ w => w
  end.

(** The execution [id] is stored with a status that cancelExecution does not
    accept: neither pending nor running. *)
Definition notCancellable (id : string) (w : World) : Prop :=
  exists row,
    executions w !! id = Some row
    /\ row_status row <> "pending" /\ row_status row <> "running".

(** One step on the store, other than the first phase of a run under [id]: a
    request to executeFlow, retryExecution or cancelExecution (for any id), the
    first phase of a run under another id, iterations of the loop of any run,
    or the settling of any run. *)
Inductive otherStep (id : string) : World -> World -> Prop :=
| step_executeFlow request uuid w :
    otherStep id w (snd (fst (executeFlow request uuid w)))
| step_retryExecution id' uuid w :
    otherStep id w (snd (fst (retryExecution id' uuid w)))
| step_cancelExecution id' w :
    otherStep id w (snd (cancelExecution id' w))
| step_asyncBegin id' flow input w :
    id' <> id -> otherStep id w (snd (asyncBegin id' flow input w))
| step_traverse fuel flow current result ctx w :
    otherStep id w (loopWorld (traverse fuel flow current result ctx w))
| step_asyncSettle r ctx w :
    otherStep id w (asyncSettle r ctx w).

(** ** services/FlowService.ts *)

(** ApiError.validation of types/index.ts. *)
Definition validation (message : string) : JsError :=
  ApiError 400 "VALIDATION_ERROR" message.

(** A stored connection object, seen through the fields that the engine reads
    (sourceNodeId, targetNodeId, sourceHandle) and the fields that
    FlowService reads (sourceId, targetId; missing when [None]). *)
Record StoredConnection := {
  engineFields : FlowConnection;
  sourceId : option string;
  targetId : option string
}.

(** The flow object as the engine reads it. *)
Definition engineFlow (id name status : string) (ns : list FlowNode)
    (cs : list FlowConnection) (vs : FlowVariables) : Flow :=
  {| flow_id := id; flow_name := name; flow_status := status;
     nodes := ns; connections := cs; variables := vs |}.

Module FlowService.

(** A row of the flows table, without its id and its two timestamps. The
    table has no status column. *)
Record Row := {
  col_name : string;
  col_description : option string;
  col_category : string;
  col_nodes : list FlowNode;
  col_connections : list StoredConnection;
  col_variables : FlowVariables;
  col_settings : jsany;
  col_is_published : bool;
  col_is_archived : bool;
  col_version : Z
}.

(** The backend's Flow object (types/index.ts), without its timestamps. *)
Record Flow := {
  id : string;
  name : string;
  description : option string;
  category : string;
  nodes : list FlowNode;
  connections : list StoredConnection;
  variables : FlowVariables;
  settings : jsany;
  isPublished : bool;
  isArchived : bool;
  version : Z;
  status : string
}.

(** [row.status] of a row selected from the flows table: there is no such
    column, so the field is missing. *)
Definition row_status_field (row : Row) : option string := None.

(** mapRowToFlow; [row.status || 'draft']. *)
Definition mapRowToFlow (rowId : string) (row : Row) : Flow :=
  {| id := rowId;
     name := col_name row;
     description := col_description row;
     category := col_category row;
     nodes := col_nodes row;
     connections := col_connections row;
     variables := col_variables row;
     settings := col_settings row;
     isPublished := col_is_published row;
     isArchived := col_is_archived row;
     version := col_version row;
     status := match row_status_field row with
               | Some s => if String.eqb s "" then "draft" else s
               | None => "draft"
               end |}.

(** getFlowById: the mapped row, or null. *)
Definition getFlowById (flowId : string) (table : gmap string Row) : option Flow :=
  match table !! flowId with
  | Some row => Some (mapRowToFlow flowId row)
  | None => None
  end.

Definition idExists (ns : list FlowNode) (o : option string) : bool :=
  match o with
  | Some i => existsb (fun n => String.eqb (node_id n) i) ns
  | None => false
  end.

(** The [for] loop over the connections: the first connection with a missing
    endpoint throws. *)
Fixpoint checkConnections (ns : list FlowNode) (cs : list StoredConnection)
    : Result unit :=
  match cs with
  | [] => Ok tt
  | connection :: rest =>
      if negb (idExists ns (sourceId connection))
         || negb (idExists ns (targetId connection))
      then Throw (validation "Invalid connection: source or target node not found")
      else checkConnections ns rest
  end.

(** The private validateFlowStructure of FlowService. *)
Definition validateFlowStructure (flow : Flow) : Result unit :=
  if Nat.eqb (length (nodes flow)) 0
  then Throw (validation "Flow must have at least one node")
  else if negb (existsb (fun n => String.eqb (node_type n) "start") (nodes flow))
  then Throw (validation "Flow must have a start node")
  else if negb (existsb (fun n => String.eqb (node_type n) "end") (nodes flow))
  then Throw (validation "Flow must have an end node")
  else if negb (Nat.eqb (length (map node_id (nodes flow)))
                        (size (list_to_set (map node_id (nodes flow)) : gset string)))
  then Throw (validation "Node IDs must be unique")
  else checkConnections (nodes flow) (connections flow).

Definition set_published (row : Row) : Row :=
  {| col_name := col_name row; col_description := col_description row;
     col_category := col_category row; col_nodes := col_nodes row;
     col_connections := col_connections row; col_variables := col_variables row;
     col_settings := col_settings row; col_is_published := true;
     col_is_archived := col_is_archived row; col_version := col_version row |}.

Definition set_archived (row : Row) : Row :=
  {| col_name := col_name row; col_description := col_description row;
     col_category := col_category row; col_nodes := col_nodes row;
     col_connections := col_connections row; col_variables := col_variables row;
     col_settings := col_settings row; col_is_published := col_is_published row;
     col_is_archived := true; col_version := col_version row |}.

(** The [catch] that every method of the service ends with: whatever was
    thrown inside is replaced by an internal error with a fixed message. *)
Definition catchAll {A} (message : string) (body : Result A * gmap string Row)
    : Result A * gmap string Row :=
  match body with
  | (Throw _, table) => (Throw (internal message), table)
  | (Ok a, table) => (Ok a, table)
  end.

(** publishFlow. The result is [updatedFlow!], which is null when the row
    has gone. *)
Definition publishFlow (flowId : string) (table : gmap string Row)
    : Result (option Flow) * gmap string Row :=
  catchAll "Failed to publish flow"
    match getFlowById flowId table with
    | None => (Throw (notFound "Flow not found"), table)
    | Some flow =>
        match validateFlowStructure flow with
        | Throw e => (Throw e, table)
        | Ok _ =>
            let table' := alter set_published flowId table in
            (Ok (getFlowById flowId table'), table')
        end
    end.

Definition archiveFlow (flowId : string) (table : gmap string Row)
    : Result (option Flow) * gmap string Row :=
  catchAll "Failed to archive flow"
    match getFlowById flowId table with
    | None => (Throw (notFound "Flow not found"), table)
    | Some _ =>
        let table' := alter set_archived flowId table in
        (Ok (getFlowById flowId table'), table')
    end.

(** The argument of createFlow; [None] is a missing field. *)
Record CreateData := {
  new_name : string;
  new_description : option string;
  new_category : string;
  new_nodes : option (list FlowNode);
  new_connections : option (list StoredConnection);
  new_variables : option FlowVariables;
  new_settings : option jsany
}.

Definition defaultSettings : jsany :=
  VObj [("timeout", VNum 300000); ("retryCount", VNum 0)].

(** createFlow. [uuid] is the value of [uuidv4()]; the INSERT fails on a
    primary-key clash. *)
Definition createFlow (data : CreateData) (uuid : string) (table : gmap string Row)
    : Result Flow * gmap string Row :=
  catchAll "Failed to create flow"
    (let flow :=
       {| id := uuid;
          name := new_name data;
          description := new_description data;
          category := new_category data;
          nodes := match new_nodes data with Some ns => ns | None => [] end;
          connections := match new_connections data with Some cs => cs | None => [] end;
          variables := match new_variables data with
                       | Some vs => vs
                       | None => VarsRecord []
                       end;
          settings := match new_settings data with
                      | Some v => if truthy v then v else defaultSettings
                      | None => defaultSettings
                      end;
          isPublished := false;
          isArchived := false;
          version := 1;
          status := "draft" |} in
     match table !! uuid with
     | Some _ => (Throw (Error "SQLITE_CONSTRAINT: UNIQUE constraint failed: flows.id"), table)
     | None =>
         (Ok flow,
          <[uuid := {| col_name := name flow; col_description := description flow;
                       col_category := category flow; col_nodes := nodes flow;
                       col_connections := connections flow;
                       col_variables := variables flow;
                       col_settings := settings flow;
                       col_is_published := isPublished flow;
                       col_is_archived := isArchived flow;
                       col_version := version flow |}]> table)
     end).

(** The argument of updateFlow, as its declared type has it: every field is
    optional, and [None] is [undefined]. *)
Record UpdateData := {
  upd_name : option string;
  upd_description : option string;
  upd_category : option string;
  upd_nodes : option (list FlowNode);
  upd_connections : option (list StoredConnection);
  upd_variables : option FlowVariables;
  upd_settings : option jsany
}.

Definition orKeep {A} (o : option A) (old : A) : A :=
  match o with
  | Some a => a
  | None => old
  end.

(** The UPDATE that updateFlow builds: one assignment per given field. *)
Definition applyUpdate (data : UpdateData) (row : Row) : Row :=
  {| col_name := orKeep (upd_name data) (col_name row);
     col_description := match upd_description data with
                        | Some d => Some d
                        | None => col_description row
                        end;
     col_category := orKeep (upd_category data) (col_category row);
     col_nodes := orKeep (upd_nodes data) (col_nodes row);
     col_connections := orKeep (upd_connections data) (col_connections row);
     col_variables := orKeep (upd_variables data) (col_variables row);
     col_settings := orKeep (upd_settings data) (col_settings row);
     col_is_published := col_is_published row;
     col_is_archived := col_is_archived row;
     col_version := col_version row |}.

Definition updateFlow (flowId : string) (data : UpdateData) (table : gmap string Row)
    : Result (option Flow) * gmap string Row :=
  catchAll "Failed to update flow"
    match getFlowById flowId table with
    | None => (Throw (notFound "Flow not found"), table)
    | Some _ =>
        let table' := alter (applyUpdate data) flowId table in
        (Ok (getFlowById flowId table'), table')
    end.

(** duplicateFlow. [newName || `${name} (Copy)`]; the copy is made by
    createFlow, whose own error is caught again here. *)
Definition duplicateFlow (flowId : string) (newName : option string) (uuid : string)
    (table : gmap string Row) : Result Flow * gmap string Row :=
  catchAll "Failed to duplicate flow"
    match getFlowById flowId table with
    | None => (Throw (notFound "Flow not found"), table)
    | Some originalFlow =>
        createFlow
          {| new_name := match newName with
                         | Some n => if String.eqb n "" then name originalFlow ++ " (Copy)"
                                     else n
                         | None => name originalFlow ++ " (Copy)"
                         end;
             new_description := description originalFlow;
             new_category := category originalFlow;
             new_nodes := Some (nodes originalFlow);
             new_connections := Some (connections originalFlow);
             new_variables := Some (variables originalFlow);
             new_settings := Some (settings originalFlow) |}
          uuid table
    end.

(** The flow object as ExecutionService reads it. *)
Definition toEngine (flow : Flow) :=
  engineFlow (id flow) (name flow) (status flow) (nodes flow)
             (map engineFields (connections flow)) (variables flow).

End FlowService.

(** What [flowService.getFlowById] gives ExecutionService for each id, when
    the flows live in the table. *)
Definition engineStore (table : gmap string FlowService.Row) : gmap string Flow :=
  map_imap (fun flowId row =>
              Some (FlowService.toEngine (FlowService.mapRowToFlow flowId row)))
           table.

(** The connections as validateFlowStructure of utils/validation.ts reads
    them, and a stored connection whose two pairs of endpoint fields agree. *)
Definition endpointsAgree (c : StoredConnection) : Prop :=
  sourceId c = Some (sourceNodeId (engineFields c))
  /\ targetId c = Some (targetNodeId (engineFields c)).

(** ** Concrete inputs for FlowService *)

Definition storedConn (source target : string) : StoredConnection :=
  {| engineFields := conn source target None;
     sourceId := Some source; targetId := Some target |}.

(** start -> end, stored and already published. *)
Definition publishedRow : FlowService.Row :=
  {| FlowService.col_name := "demo"; FlowService.col_description := None;
     FlowService.col_category := "general";
     FlowService.col_nodes := [node "s" "start" None; node "e" "end" None];
     FlowService.col_connections := [storedConn "s" "e"];
     FlowService.col_variables := VarsArray [];
     FlowService.col_settings := VObj [];
     FlowService.col_is_published := true;
     FlowService.col_is_archived := false;
     FlowService.col_version := 1 |}.

Definition tableWithPublished : gmap string FlowService.Row :=
  {[ "f1" := publishedRow ]}.

Definition worldOnTable : World :=
  {| flows := engineStore tableWithPublished; executions := ∅;
     execution_logs := []; activeExecutions := ∅;
     clock := fun n => Z.of_nat n; reads := 0 |}.

(** ** utils/rateLimiter.ts: MemoryStore and RateLimiter *)

(** ApiError.tooManyRequests of types/index.ts. *)
Definition tooManyRequests (message : string) : JsError :=
  ApiError 429 "TOO_MANY_REQUESTS" message.

Module RateLimiter.

Record Entry := {
  count : Z;
  expiry : Z
}.

(** MemoryStore.get; [now] is its reading of Date.now(). A missing or expired
    entry is deleted and reads as null. *)
Definition get (now : Z) (key : string) (store : gmap string Entry)
    : option Z * gmap string Entry :=
  match store !! key with
  | Some entry =>
      if (expiry entry <? now)%Z then (None, delete key store)
      else (Some (count entry), store)
  | None => (None, delete key store)
  end.

(** MemoryStore.set; [now] is its reading of Date.now(). *)
Definition set (now : Z) (key : string) (value ttl : Z) (store : gmap string Entry)
    : gmap string Entry :=
  <[key := {| count := value; expiry := (now + ttl)%Z |}]> store.

(** MemoryStore.increment: a get (reading [now1]) and then a set (reading
    [now2]); [(current || 0) + 1]. *)
Definition increment (now1 now2 : Z) (key : string) (ttl : Z)
    (store : gmap string Entry) : Z * gmap string Entry :=
  let (current, store1) := get now1 key store in
  let newCount :=
    ((match current with
      | Some c => if (c =? 0)%Z then 0 else c
      | None => 0
      end) + 1)%Z in
  (newCount, set now2 key newCount ttl store1).

Definition reset (key : string) (store : gmap string Entry) : gmap string Entry :=
  delete key store.

(** MemoryStore.cleanup; [now] is its one reading of Date.now(). *)
Definition cleanup (now : Z) (store : gmap string Entry) : gmap string Entry :=
  filter (fun kv => ~ (expiry (snd kv) < now)%Z) store.

Record Options := {
  windowMs : Z;
  maxRequests : Z;
  message : string;
  skipSuccessfulRequests : bool;
  skipFailedRequests : bool
}.

(** The X-RateLimit-Limit and X-RateLimit-Remaining headers, as numbers. The
    X-RateLimit-Reset header is a timestamp and is left out. *)
Record Headers := {
  limit : Z;
  remaining : Z
}.

(** The middleware for one request with key [key]: count it, set the headers,
    and pass the request on ([Ok]) or hand tooManyRequests to [next]. *)
Definition middleware (options : Options) (now1 now2 : Z) (key : string)
    (store : gmap string Entry) : Headers * Result unit * gmap string Entry :=
  let (current, store') := increment now1 now2 key (windowMs options) store in
  let headers :=
    {| limit := maxRequests options;
       remaining := Z.max 0 (maxRequests options - current) |} in
  if (maxRequests options <? current)%Z
  then (headers, Throw (tooManyRequests (message options)), store')
  else (headers, Ok tt, store').

(** The patched [res.send] of a request that was passed on: when the
    response status is one to skip, an increment (readings [now1], [now2])
    followed by a set of the new count minus one (reading [now3]). *)
Definition afterSend (options : Options) (statusCode : Z) (now1 now2 now3 : Z)
    (key : string) (store : gmap string Entry) : gmap string Entry :=
  let shouldSkip :=
    ((statusCode <? 400)%Z && skipSuccessfulRequests options)
    || ((400 <=? statusCode)%Z && skipFailedRequests options) in
  if shouldSkip then
    let (newCount, store') := increment now1 now2 key (windowMs options) store in
    set now3 key (Z.max 0 (newCount - 1)) (windowMs options) store'
  else store.

(** RateLimiter.getCount: [(await this.store.get(key)) || 0]. *)
Definition getCount (now : Z) (key : string) (store : gmap string Entry)
    : Z * gmap string Entry :=
  let (current, store') := get now key store in
  (match current with Some c => c | None => 0%Z end, store').

(** A burst of requests with one key: each request comes with the two clock
    readings of its increment. The decisions are listed in order. *)
Fixpoint serve (options : Options) (key : string) (requests : list (Z * Z))
    (store : gmap string Entry) : list (Headers * Result unit) * gmap string Entry :=
  match requests with
  | [] => ([], store)
  | (now1, now2) :: rest =>
      let '(headers, decision, store') := middleware options now1 now2 key store in
      let (decisions, store'') := serve options key rest store' in
      ((headers, decision) :: decisions, store'')
  end.

(** Each request of the burst arrives no later than one window after the
    request before it was counted. *)
Fixpoint withinWindow (windowMs : Z) (previous : Z) (requests : list (Z * Z)) : Prop :=
  match requests with
  | [] => True
  | (now1, now2) :: rest =>
      (now1 <= previous + windowMs)%Z /\ withinWindow windowMs now2 rest
  end.

End RateLimiter.

(** ** Further notions: the decisions of a rate limiter *)

(** The headers and the decision for a request that is counted as number
    [n] of its window. *)
Definition decisionAt (options : RateLimiter.Options) (n : Z)
    : RateLimiter.Headers * Result unit :=
  ({| RateLimiter.limit := RateLimiter.maxRequests options;
      RateLimiter.remaining := Z.max 0 (RateLimiter.maxRequests options - n) |},
   if (RateLimiter.maxRequests options <? n)%Z
   then Throw (tooManyRequests (RateLimiter.message options))
   else Ok tt).

(** The decisions for requests counted as numbers [from + 1], [from + 2],
    ..., [from + n]. *)
Fixpoint decisionsFrom (options : RateLimiter.Options) (from : Z) (n : nat)
    : list (RateLimiter.Headers * Result unit) :=
  match n with
  | O => []
  | S n' => decisionAt options (from + 1) :: decisionsFrom options (from + 1) n'
  end.

Definition strictOptions : RateLimiter.Options :=
  {| RateLimiter.windowMs := 60000; RateLimiter.maxRequests := 2;
     RateLimiter.message := "Rate limit exceeded, please try again later";
     RateLimiter.skipSuccessfulRequests := true;
     RateLimiter.skipFailedRequests := false |}.

(** ** getExecutionLogs *)

(** The query of getExecutionLogs; [None] is a missing field. *)
Record LogQuery := {
  q_page : option Z;
  q_limit : option Z;
  q_level : option string
}.

Record LogPage := {
  items : list LogRow;
  total : Z;
  page : Z;
  limit : Z;
  totalPages : option Z
}.

(** SQLite's [LIMIT ? OFFSET ?]: a negative offset counts as 0 and a negative
    limit as no limit. *)
Definition limitOffset {A} (limit offset : Z) (rows : list A) : list A :=
  let rest := drop (Z.to_nat offset) rows in
  if (limit <? 0)%Z then rest else take (Z.to_nat limit) rest.

(** The WHERE clause: [execution_id = ?], and [level = ?] when a (non-empty)
    level is given. *)
Definition logMatches (executionId : string) (wanted : option string) (l : LogRow) : bool :=
  String.eqb (log_execution_id l) executionId
  && match wanted with
     | Some lv => if String.eqb lv "" then true else String.eqb (level l) lv
     | None => true
     end.

(** [Math.ceil(total / limit)] on integers; Infinity and NaN (limit 0) are
    [None]. *)
Definition ceilDiv (total limit : Z) : option Z :=
  if (limit =? 0)%Z then None else Some (- ((- total) / limit))%Z.

(** getExecutionLogs. [ORDER BY timestamp ASC] is the order in which the
    lines were written. *)
Definition getExecutionLogs (executionId : string) (query : LogQuery) (w : World)
    : LogPage :=
  let page := match q_page query with Some p => p | None => 1%Z end in
  let limit := match q_limit query with Some l => l | None => 50%Z end in
  let offset := ((page - 1) * limit)%Z in
  let rows := List.filter (logMatches executionId (q_level query)) (execution_logs w) in
  {| items := limitOffset limit offset rows;
     total := Z.of_nat (length rows);
     page := page;
     limit := limit;
     totalPages := ceilDiv (Z.of_nat (length rows)) limit |}.

(** The query [{ page, limit, level }]. *)
Definition pageQuery (page limit : Z) (wanted : option string) : LogQuery :=
  {| q_page := Some page; q_limit := Some limit; q_level := wanted |}.

(** A store with three log lines of execution "e1" and one of "e2". *)
Definition worldWithLogs : World :=
  addExecutionLog "e1" "n3" "error" "third" None
    (addExecutionLog "e2" "n1" "info" "other" None
      (addExecutionLog "e1" "n2" "info" "second" None
        (addExecutionLog "e1" "n1" "info" "first" None world0))).

(** * Properties *)

(** Closes a goal about a concrete run by evaluating both sides. *)
Ltac run := vm_compute; reflexivity.

(** ** Node executors *)

Lemma is_case_true o lit : is_case o lit = true <-> o = Some lit.
Proof.
  destruct o as [s|]; simpl.
  - rewrite String.eqb_eq. split; congruence.
  - split; discriminate.
Qed.

Lemma is_case_false o lit : is_case o lit = false <-> o <> Some lit.
Proof.
  rewrite <- is_case_true. destruct (is_case o lit); split; congruence.
Qed.

(** executeNode in one equation: two clock readings around the dispatch. *)
Lemma executeNode_unfold node ctx input w :
  exists r,
    executeNode node ctx input w = (Ok r, snd (dispatch node input ctx), snd (dateNow (snd (dateNow w))))
    /\ nodeId r = node_id node
    /\ res_inputData r = input
    /\ executionTime r = (clock w (S (reads w)) - clock w (reads w))%Z
    /\ match fst (dispatch node input ctx) with
       | Ok out =>
           success r = true /\ status r = "completed"
           /\ res_outputData r = out /\ error r = None
       | Throw e =>
           success r = false /\ status r = "failed"
           /\ res_outputData r = VNull /\ error r = Some (error_message e)
       end.
Proof.
  unfold executeNode. simpl.
  destruct (dispatch node input ctx) as [[out|e] ctx']; simpl;
    eexists; (split; [reflexivity|]); simpl; repeat split; reflexivity.
Qed.

Lemma dispatch_unknown node input ctx :
  knownType (node_type node) = false ->
  dispatch node input ctx
  = (Throw (Error ("Unsupported node type: " ++ node_type node)), ctx).
Proof.
  unfold knownType, dispatch. intros H.
  repeat (apply orb_false_elim in H; destruct H as [H ?]).
  repeat match goal with E : String.eqb _ _ = false |- _ => rewrite E; clear E end.
  reflexivity.
Qed.

Lemma dispatch_condition node input ctx :
  node_type node = "condition" ->
  dispatch node input ctx = executeConditionNode node input ctx.
Proof. unfold dispatch. intros ->. reflexivity. Qed.

Lemma dispatch_variable node input ctx :
  node_type node = "variable" ->
  dispatch node input ctx = executeVariableNode node input ctx.
Proof. unfold dispatch. intros ->. reflexivity. Qed.

Lemma executeVariableNode_unsupported node input ctx :
  operation (config_of node) <> Some "set" ->
  operation (config_of node) <> Some "get" ->
  executeVariableNode node input ctx
  = (Throw (Error ("Unsupported variable operation: "
                   ++ show (operation (config_of node)))), ctx).
Proof.
  intros Hs Hg. unfold executeVariableNode.
  apply is_case_false in Hs, Hg. rewrite Hs, Hg. reflexivity.
Qed.

(** C10. executeNode never throws: for every node, context, input and clock
    it returns a NodeExecutionResult. When the executor inside raised an error
    the result has success = false, outputData = null and the error's message,
    and executionTime is the difference of the two clock readings; this covers
    a node of an unrecognised type, a condition node without a condition and a
    variable node with an unsupported operation. *)
Theorem executeNode_never_throws (node : FlowNode) (ctx : ExecutionContext)
    (input : jsany) (w : World) :
  exists r ctx' w',
    executeNode node ctx input w = (Ok r, ctx', w')
    /\ nodeId r = node_id node
    /\ executionTime r = (clock w (S (reads w)) - clock w (reads w))%Z
    /\ (forall e c, dispatch node input ctx = (Throw e, c) ->
          success r = false /\ res_outputData r = VNull
          /\ error r = Some (error_message e) /\ ctx' = c)
    /\ (knownType (node_type node) = false ->
          success r = false /\ res_outputData r = VNull
          /\ error r = Some ("Unsupported node type: " ++ node_type node))
    /\ (node_type node = "condition" -> truthy (condition (config_of node)) = false ->
          success r = false /\ res_outputData r = VNull
          /\ error r = Some "Condition node missing condition configuration")
    /\ (node_type node = "variable" ->
          operation (config_of node) <> Some "set" ->
          operation (config_of node) <> Some "get" ->
          success r = false /\ res_outputData r = VNull
          /\ error r = Some ("Unsupported variable operation: "
                             ++ show (operation (config_of node)))).
Proof.
  destruct (executeNode_unfold node ctx input w) as (r & Heq & Hid & _ & Ht & Hr).
  exists r, (snd (dispatch node input ctx)), (snd (dateNow (snd (dateNow w)))).
  split; [exact Heq|]. split; [exact Hid|]. split; [exact Ht|].
  split; [|split; [|split]].
  - intros e c Hd. rewrite Hd in Hr |- *. simpl in *. tauto.
  - intros Hk. rewrite (dispatch_unknown _ _ _ Hk) in Hr. simpl in Hr. tauto.
  - intros Ht' Hc. rewrite (dispatch_condition _ _ _ Ht') in Hr.
    unfold executeConditionNode in Hr. rewrite Hc in Hr. simpl in Hr. tauto.
  - intros Ht' Hs Hg. rewrite (dispatch_variable _ _ _ Ht') in Hr.
    rewrite (executeVariableNode_unsupported _ _ _ Hs Hg) in Hr. simpl in Hr. tauto.
Qed.

(** C8, as the claim states it, fails: an increment node neither updates the
    variable nor passes the current data through. *)
Lemma variable_increment_fails :
  exists r ctx' w',
    executeNode (variableNode "increment") contextWithN (VNum 7) world0 = (Ok r, ctx', w')
    /\ success r = false
    /\ res_outputData r = VNull
    /\ error r = Some "Unsupported variable operation: increment"
    /\ ctx_variables ctx' !! Some "n" = Some (VNum 1).
Proof.
  do 3 eexists. split; [run|]. repeat split; run.
Qed.

(** C8, amended. A variable node supports set and get only. set stores the
    configured value under the variable name and passes the current data
    through; get returns the variable's value (undefined when unset) and
    leaves the variables alone; any other operation, increment, decrement and
    append included, makes the node fail with "Unsupported variable
    operation", output null and the variables unchanged. *)
Theorem variable_node_set_get_only (node : FlowNode) (ctx : ExecutionContext)
    (input : jsany) (w : World) :
  node_type node = "variable" ->
  exists r ctx' w',
    executeNode node ctx input w = (Ok r, ctx', w')
    /\ (operation (config_of node) = Some "set" ->
          success r = true /\ res_outputData r = input
          /\ ctx' = with_variables
                      (<[variableName (config_of node) := value (config_of node)]>
                         (ctx_variables ctx)) ctx)
    /\ (operation (config_of node) = Some "get" ->
          success r = true
          /\ res_outputData r = map_get (ctx_variables ctx) (variableName (config_of node))
          /\ ctx' = ctx)
    /\ (operation (config_of node) <> Some "set" ->
          operation (config_of node) <> Some "get" ->
          success r = false /\ res_outputData r = VNull
          /\ error r = Some ("Unsupported variable operation: "
                             ++ show (operation (config_of node)))
          /\ ctx' = ctx).
Proof.
  intros Hty.
  destruct (executeNode_unfold node ctx input w) as (r & Heq & _ & _ & _ & Hr).
  exists r, (snd (dispatch node input ctx)), (snd (dateNow (snd (dateNow w)))).
  split; [exact Heq|].
  rewrite (dispatch_variable _ _ _ Hty) in Hr |- *.
  split; [|split].
  - intros Hop. unfold executeVariableNode in *. rewrite Hop in *. simpl in *. tauto.
  - intros Hop. unfold executeVariableNode in *. rewrite Hop in *. simpl in *. tauto.
  - intros Hs Hg. rewrite (executeVariableNode_unsupported _ _ _ Hs Hg) in *.
    simpl in *. tauto.
Qed.

Lemma variable_node_set_get_only_witness :
  node_type (variableNode "set") = "variable"
  /\ exists r ctx' w',
       executeNode (variableNode "set") contextWithN (VNum 7) world0 = (Ok r, ctx', w')
       /\ success r = true /\ res_outputData r = VNum 7.
Proof.
  split; [reflexivity|].
  destruct (variable_node_set_get_only (variableNode "set") contextWithN (VNum 7) world0
              eq_refl) as (r & ctx' & w' & Heq & Hset & _).
  exists r, ctx', w'. split; [exact Heq|].
  destruct (Hset eq_refl) as (Hs & Ho & _). split; assumption.
Defined.

(** ** Traversal *)

Lemma getNextNode_first flow current data :
  getNextNode flow current data
  = match outgoingConnections flow (node_id current) with
    | [] => None
    | c :: _ => findNode flow (targetNodeId c)
    end.
Proof.
  unfold getNextNode, outgoingConnections.
  destruct (List.filter _ (connections flow)) as [|c [|c' rest]]; reflexivity.
Qed.

(** One iteration of the loop, with executeNode's result made explicit. *)
Lemma traverse_step fuel flow current result ctx w :
  exists r ctx2 w3,
    executeNode current (visit (node_id current) ctx) result
      (addExecutionLog (executionId ctx) (node_id current) "info"
         ("Executing node: " ++ node_name current)
         (Some (VObj [("nodeType", VStr (node_type current))])) w)
    = (Ok r, ctx2, snd (dateNow (snd (dateNow
         (addExecutionLog (executionId ctx) (node_id current) "info"
            ("Executing node: " ++ node_name current)
            (Some (VObj [("nodeType", VStr (node_type current))])) w)))))
    /\ res_outputData r
       = outputOf (fst (dispatch current result (visit (node_id current) ctx)))
    /\ ctx2 = snd (dispatch current result (visit (node_id current) ctx))
    /\ w3 = addExecutionLog (executionId ctx2) (node_id current) "info"
              "Node executed successfully"
              (Some (VObj [("outputData", res_outputData r)]))
              (snd (dateNow (snd (dateNow
                 (addExecutionLog (executionId ctx) (node_id current) "info"
                    ("Executing node: " ++ node_name current)
                    (Some (VObj [("nodeType", VStr (node_type current))])) w)))))
    /\ traverse (S fuel) flow current result ctx w
       = if String.eqb (node_type current) "end"
         then Finished (Ok (res_outputData r)) ctx2 w3
         else match getNextNode flow current (res_outputData r) with
              | Some next => traverse fuel flow next (res_outputData r) ctx2 w3
              | None => Finished (Ok (res_outputData r)) ctx2 w3
              end.
Proof.
  destruct (executeNode_unfold current (visit (node_id current) ctx) result
              (addExecutionLog (executionId ctx) (node_id current) "info"
                 ("Executing node: " ++ node_name current)
                 (Some (VObj [("nodeType", VStr (node_type current))])) w))
    as (r & Heq & _ & _ & _ & Hr).
  exists r. do 2 eexists. split; [exact Heq|]. split.
  { destruct (fst (dispatch current result (visit (node_id current) ctx)));
      simpl; tauto. }
  split; [reflexivity|]. split; [reflexivity|].
  cbn [traverse]. cbn [visit executionId] in *. rewrite Heq. reflexivity.
Qed.

(** Running the loop for [n] iterations and resuming it for [m] more is
    running it for [n + m]. *)
Lemma traverse_resume n m : forall flow current result ctx w,
  traverse (n + m) flow current result ctx w
  = match traverse n flow current result ctx w with
    | Finished r ctx' w' => Finished r ctx' w'
    | Running next result' ctx' w' => traverse m flow next result' ctx' w'
    end.
Proof.
  induction n as [|n IH]; intros flow current result ctx w; [reflexivity|].
  change (S n + m) with (S (n + m)).
  destruct (traverse_step (n + m) flow current result ctx w)
    as (r & ctx2 & w3 & Hex & _ & Hc & Hw & ->).
  destruct (traverse_step n flow current result ctx w)
    as (r' & ctx2' & w3' & Hex' & _ & Hc' & Hw' & ->).
  rewrite Hex in Hex'. injection Hex' as <-. subst ctx2' w3' ctx2 w3.
  destruct (String.eqb (node_type current) "end"); [reflexivity|].
  destruct (getNextNode flow current (res_outputData r)) as [next|]; [|reflexivity].
  apply IH.
Qed.

(** The loop finishes exactly when the chain stops, and never by a throw. *)
Lemma traverse_chain fuel : forall flow current result ctx w,
  match traverse fuel flow current result ctx w with
  | Finished (Ok _) _ _ => chainStops fuel flow current = true
  | Finished (Throw _) _ _ => False
  | Running _ _ _ _ => chainStops fuel flow current = false
  end.
Proof.
  induction fuel as [|fuel IH]; intros flow current result ctx w.
  - reflexivity.
  - destruct (traverse_step fuel flow current result ctx w)
      as (r & ctx2 & w3 & _ & _ & _ & _ & ->).
    cbn [chainStops].
    destruct (String.eqb (node_type current) "end"); [reflexivity|].
    rewrite !getNextNode_first.
    destruct (outgoingConnections flow (node_id current)) as [|c rest];
      [reflexivity|].
    destruct (findNode flow (targetNodeId c)) as [next|]; [|reflexivity].
    apply IH.
Qed.

Lemma dispatch_executionId current input ctx :
  executionId (snd (dispatch current input ctx)) = executionId ctx.
Proof.
  unfold dispatch, executeConditionNode, executeActionNode, executeDelayNode,
    executeVariableNode.
  repeat match goal with
         | |- context [if ?b then _ else _] => destruct b
         end; reflexivity.
Qed.

(** The loop writes log lines and reads the clock; it never touches the
    executions table, the registry or the flows, and keeps the execution id. *)
Lemma traverse_store fuel : forall flow current result ctx w,
  match traverse fuel flow current result ctx w with
  | Finished _ ctx' w' | Running _ _ ctx' w' =>
      executionId ctx' = executionId ctx /\ sameStore w w'
  end.
Proof.
  induction fuel as [|fuel IH]; intros flow current result ctx w.
  - simpl. unfold sameStore. auto.
  - destruct (traverse_step fuel flow current result ctx w)
      as (r & ctx2 & w3 & _ & _ & Hc & Hw & ->).
    assert (Hid : executionId ctx2 = executionId ctx).
    { subst ctx2. rewrite dispatch_executionId. reflexivity. }
    assert (Hs : sameStore w w3).
    { subst w3. unfold sameStore. simpl. auto. }
    assert (Hfin : executionId ctx2 = executionId ctx /\ sameStore w w3) by auto.
    destruct (String.eqb (node_type current) "end"); [exact Hfin|].
    destruct (getNextNode flow current (res_outputData r)) as [next|]; [|exact Hfin].
    specialize (IH flow next (res_outputData r) ctx2 w3).
    destruct (traverse fuel flow next (res_outputData r) ctx2 w3)
      as [r' c' w'|n' r' c' w'];
      destruct IH as (Hid' & He & Ha & Hf); destruct Hs as (He0 & Ha0 & Hf0);
      unfold sameStore; repeat split; congruence.
Qed.

Lemma asyncSettle_executions r ctx w :
  executions (asyncSettle r ctx w)
  = match r with
    | Ok result =>
        alter (completeRow result (clock w (reads w) - startTime ctx)%Z)
              (executionId ctx) (executions w)
    | Throw e =>
        alter (failRow (error_message e) (clock w (reads w) - startTime ctx)%Z)
              (executionId ctx) (executions w)
    end.
Proof. destruct r; reflexivity. Qed.

(** C1, evaluated on start -> action("notification") -> end. The action node's
    executor fails, yet the loop logs "Node executed successfully" for it, goes
    on to the end node, and the run settles as completed with no error message
    and no error-level log line. *)
Theorem failed_node_is_swallowed :
  (exists r ctx' w',
      executeNode (node "a" "action" (actionConfig "notification"))
                  (context0 (VObj [])) (VObj []) world1 = (Ok r, ctx', w')
      /\ success r = false
      /\ error r = Some "Unsupported action type: notification")
  /\ (exists ctx' w',
        executeNodes 10 failingFlow (context0 (VObj [])) world1
        = Finished (Ok VNull) ctx' w'
        /\ executionPath ctx' = ["s"; "a"; "e"])
  /\ (exists w',
        executeFlowAsync 10 "x1" failingFlow (VObj []) world1 = Settled w'
        /\ (row_status <$> executions w' !! "x1") = Some "completed"
        /\ (error_message_col <$> executions w' !! "x1") = Some None
        /\ List.filter (fun l => String.eqb (level l) "error") (execution_logs w') = []
        /\ List.map message
             (List.filter (fun l => String.eqb (log_node_id l) "a") (execution_logs w'))
           = ["Executing node: a"; "Node executed successfully"]).
Proof.
  split; [|split].
  - do 3 eexists. split; [run|]. split; run.
  - do 2 eexists. split; run.
  - eexists. split; [run|]. repeat split; run.
Qed.

Lemma cyclic_chain fuel :
  chainStops fuel cyclicFlow (node "a" "action" (actionConfig "http_request")) = false.
Proof. induction fuel as [|fuel IH]; [reflexivity|exact IH]. Qed.

(** C2, as the claim states it, fails: on start -> a, a -> a, a -> end the loop
    is still running whatever the fuel, and it has entered node a four times
    after five iterations without any failure. *)
Lemma cyclic_flow_never_finishes :
  (forall fuel, exists next result ctx' w',
      executeNodes fuel cyclicFlow (context0 (VObj [])) world1
      = Running next result ctx' w')
  /\ (exists result ctx' w',
        executeNodes 5 cyclicFlow (context0 (VObj [])) world1
        = Running (node "a" "action" (actionConfig "http_request")) result ctx' w'
        /\ executionPath ctx' = ["s"; "a"; "a"; "a"; "a"]).
Proof.
  split.
  - intros fuel. unfold executeNodes. cbn [List.find cyclicFlow mkFlow nodes].
    change (String.eqb (node_type (node "s" "start" None)) "start") with true.
    cbv iota.
    pose proof (traverse_chain fuel cyclicFlow (node "s" "start" None)
                  (inputData (context0 (VObj []))) (context0 (VObj [])) world1) as H.
    destruct (traverse fuel cyclicFlow _ _ _ _) as [[out|e] c' w'|n' r' c' w'].
    + exfalso. destruct fuel as [|fuel]; [discriminate|].
      change (chainStops (S fuel) cyclicFlow (node "s" "start" None))
        with (chainStops fuel cyclicFlow
                (node "a" "action" (actionConfig "http_request"))) in H.
      rewrite cyclic_chain in H. discriminate.
    + contradiction.
    + eauto.
  - do 3 eexists. split; run.
Qed.

(** C2, amended. The loop has no revisit guard and no CycleDetected failure.
    With a start node present, executeNodes finishes within the given number
    of iterations exactly when following the first declared outgoing
    connection from the start node reaches an end node, or a node with no
    next node, within that many nodes; it then returns normally. Otherwise it
    is still running. Without a start node it throws "No start node found in
    flow". *)
Theorem executeNodes_finishes_iff_chain_stops (fuel : nat) (flow : Flow)
    (ctx : ExecutionContext) (w : World) :
  match List.find (fun n => String.eqb (node_type n) "start") (nodes flow) with
  | None =>
      executeNodes fuel flow ctx w
      = Finished (Throw (Error "No start node found in flow")) ctx w
  | Some startNode =>
      match executeNodes fuel flow ctx w with
      | Finished (Ok _) _ _ => chainStops fuel flow startNode = true
      | Finished (Throw _) _ _ => False
      | Running _ _ _ _ => chainStops fuel flow startNode = false
      end
  end.
Proof.
  unfold executeNodes.
  destruct (List.find _ (nodes flow)) as [startNode|]; [|reflexivity].
  apply traverse_chain.
Qed.

Lemma filter_endpoints id (cs : list FlowConnection) :
  List.filter (fun p => String.eqb (fst p) id) (map endpoints cs)
  = map endpoints (List.filter (fun c => String.eqb (sourceNodeId c) id) cs).
Proof.
  induction cs as [|c cs IH]; [reflexivity|].
  simpl. destruct (String.eqb (sourceNodeId c) id); simpl; rewrite IH; reflexivity.
Qed.

(** C3, as the claim states it, fails. The two rule sets "input.x equals 5"
    and "input.x equals 6" give the same output on the input {x: 5}, namely
    the input itself, and the node taken next is the target of the unlabelled
    connection declared first, which is neither the true nor the false branch
    of the specification's selection. *)
Lemma condition_branch_is_ignored :
  let input := VObj [("x", VNum 5)] in
  fst (executeConditionNode (conditionNode 5) input (context0 input)) = Ok input
  /\ fst (executeConditionNode (conditionNode 6) input (context0 input)) = Ok input
  /\ getNextNode (branchFlow 5) (conditionNode 5) input = Some (node "x" "end" None)
  /\ getNextNode (branchFlow 6) (conditionNode 6) input = Some (node "x" "end" None)
  /\ spec_nextNode (branchFlow 5) (conditionNode 5) "true" "false"
     = Some (node "t" "end" None)
  /\ spec_nextNode (branchFlow 6) (conditionNode 6) "false" "false"
     = Some (node "f" "end" None)
  /\ getNextNode (branchFlow 5) (conditionNode 5) input
     <> spec_nextNode (branchFlow 5) (conditionNode 5) "true" "false"
  /\ getNextNode (branchFlow 6) (conditionNode 6) input
     <> spec_nextNode (branchFlow 6) (conditionNode 6) "false" "false".
Proof. repeat split; try run; vm_compute; discriminate. Qed.

(** C3, amended. A condition node whose config has a (truthy) condition
    evaluates no rule and selects no branch: it succeeds with the current data
    as its output and leaves the context alone. The next node is the target of
    the first declared connection leaving the node; sourceHandle, defaultPath
    and the data play no part, the choice being a function of the connections'
    endpoints alone. *)
Theorem condition_node_passes_data_through (flow : Flow) (current : FlowNode)
    (ctx : ExecutionContext) (input : jsany) (w : World) :
  node_type current = "condition" ->
  truthy (condition (config_of current)) = true ->
  exists r w',
    executeNode current ctx input w = (Ok r, ctx, w')
    /\ success r = true
    /\ res_outputData r = input
    /\ getNextNode flow current (res_outputData r)
       = match List.filter (fun p => String.eqb (fst p) (node_id current))
                           (map endpoints (connections flow)) with
         | [] => None
         | p :: _ => findNode flow (snd p)
         end.
Proof.
  intros Hty Hc.
  destruct (executeNode_unfold current ctx input w) as (r & Heq & _ & _ & _ & Hr).
  rewrite (dispatch_condition _ _ _ Hty) in Heq, Hr.
  unfold executeConditionNode in Heq, Hr. rewrite Hc in Heq, Hr. simpl in Heq, Hr.
  exists r. eexists. split; [exact Heq|].
  destruct Hr as (Hs & _ & Ho & _). split; [exact Hs|]. split; [exact Ho|].
  rewrite getNextNode_first, filter_endpoints. unfold outgoingConnections.
  destruct (List.filter _ (connections flow)); reflexivity.
Qed.

Lemma condition_node_passes_data_through_witness :
  exists r w',
    executeNode (conditionNode 5) (context0 (VNum 1)) (VNum 1) world0
    = (Ok r, context0 (VNum 1), w')
    /\ res_outputData r = VNum 1
    /\ getNextNode (branchFlow 5) (conditionNode 5) (res_outputData r)
       = Some (node "x" "end" None).
Proof.
  destruct (condition_node_passes_data_through (branchFlow 5) (conditionNode 5)
              (context0 (VNum 1)) (VNum 1) world0 eq_refl eq_refl)
    as (r & w' & Heq & _ & Ho & Hn).
  exists r, w'. split; [exact Heq|]. split; [exact Ho|]. exact Hn.
Defined.

(** C4, as the claim states it, fails: in start -> a nothing leaves the action
    node a, which is not an end node, and the run settles as completed. *)
Lemma dead_end_run_is_completed :
  outgoingConnections deadEndFlow "a" = []
  /\ (exists ctx' w',
        executeNodes 10 deadEndFlow (context0 (VObj [])) world1
        = Finished (Ok (VObj [])) ctx' w'
        /\ currentNodeId ctx' = "a")
  /\ (exists w',
        executeFlowAsync 10 "x1" deadEndFlow (VObj []) world1 = Settled w'
        /\ (row_status <$> executions w' !! "x1") = Some "completed"
        /\ (error_message_col <$> executions w' !! "x1") = Some None).
Proof.
  split; [run|]. split.
  - do 2 eexists. split; run.
  - eexists. split; [run|]. split; run.
Qed.

(** C4, amended. When the current node is not an end node and no connection
    leaves it, the loop stops there and returns that node's output normally:
    the outputData of the result that executeNode gave for it, which is what
    the node's executor returned, or null when the executor failed. Settling
    the run then writes status completed and stores that output as
    output_data (NULL when the output is undefined), and no error message is
    recorded. There is no DeadEnd failure. *)
Theorem dead_end_completes (fuel : nat) (flow : Flow) (current : FlowNode)
    (result : jsany) (ctx : ExecutionContext) (w : World) (row : ExecutionRow) :
  String.eqb (node_type current) "end" = false ->
  outgoingConnections flow (node_id current) = [] ->
  executions w !! executionId ctx = Some row ->
  exists nodeResult ctx' w1 w' row',
    executeNode current (visit (node_id current) ctx) result
      (addExecutionLog (executionId ctx) (node_id current) "info"
         ("Executing node: " ++ node_name current)
         (Some (VObj [("nodeType", VStr (node_type current))])) w)
    = (Ok nodeResult, ctx', w1)
    /\ res_outputData nodeResult
       = outputOf (fst (dispatch current result (visit (node_id current) ctx)))
    /\ traverse (S fuel) flow current result ctx w
       = Finished (Ok (res_outputData nodeResult)) ctx' w'
    /\ currentNodeId ctx' = node_id current
    /\ executions (asyncSettle (Ok (res_outputData nodeResult)) ctx' w')
         !! executionId ctx = Some row'
    /\ row_status row' = "completed"
    /\ output_data row'
       = match res_outputData nodeResult with
         | VUndefined => None
         | out => Some out
         end
    /\ error_message_col row' = error_message_col row.
Proof.
  intros Hend Hout Hrow.
  pose proof (traverse_store (S fuel) flow current result ctx w) as Hst.
  destruct (traverse_step fuel flow current result ctx w)
    as (r & ctx2 & w3 & Hex & Ho & Hc & _ & Heq).
  rewrite Hend, getNextNode_first, Hout in Heq.
  rewrite Heq in Hst. destruct Hst as (Hid & He & _).
  exists r, ctx2. eexists. exists w3.
  eexists. split; [exact Hex|]. split; [exact Ho|]. split; [exact Heq|]. split.
  - subst ctx2. clear. unfold dispatch, executeConditionNode, executeActionNode,
      executeDelayNode, executeVariableNode.
    repeat match goal with
           | |- context [if ?b then _ else _] => destruct b
           end; reflexivity.
  - rewrite asyncSettle_executions, Hid, He, lookup_alter_eq, Hrow.
    split; [reflexivity|]. split; [reflexivity|]. split; [|reflexivity].
    cbn [completeRow output_data]. unfold jsonColumn.
    destruct (res_outputData r); reflexivity.
Qed.

Lemma dead_end_completes_witness :
  exists nodeResult ctx' w' row',
    traverse 1 deadEndGetFlow (variableNode "get") (VObj []) (context0 (VObj [])) world1
    = Finished (Ok (res_outputData nodeResult)) ctx' w'
    /\ res_outputData nodeResult = VUndefined
    /\ executions (asyncSettle (Ok (res_outputData nodeResult)) ctx' w') !! "x1"
       = Some row'
    /\ row_status row' = "completed"
    /\ output_data row' = None.
Proof.
  destruct (dead_end_completes 0 deadEndGetFlow (variableNode "get")
              (VObj []) (context0 (VObj [])) world1 pendingRow
              eq_refl eq_refl eq_refl)
    as (r & ctx' & w1 & w' & row' & _ & Ho & Heq & _ & Hrow & Hst & Hout & _).
  exists r, ctx', w', row'.
  assert (Hu : res_outputData r = VUndefined) by (rewrite Ho; reflexivity).
  split; [exact Heq|]. split; [exact Hu|]. split; [exact Hrow|].
  split; [exact Hst|]. rewrite Hout, Hu. reflexivity.
Defined.

(** ** The loop does not look at the store *)

Lemma traverse_view fuel : forall flow current result ctx w w',
  outcomeView (traverse fuel flow current result ctx w)
  = outcomeView (traverse fuel flow current result ctx w').
Proof.
  induction fuel as [|fuel IH]; intros flow current result ctx w w'.
  - reflexivity.
  - destruct (traverse_step fuel flow current result ctx w)
      as (r & ctx2 & w3 & _ & Ho & Hc & _ & ->).
    destruct (traverse_step fuel flow current result ctx w')
      as (r' & ctx2' & w3' & _ & Ho' & Hc' & _ & ->).
    rewrite Ho, Ho'. subst ctx2 ctx2'.
    destruct (String.eqb (node_type current) "end"); [reflexivity|].
    destruct (getNextNode flow current _) as [next|]; [apply IH|reflexivity].
Qed.

Lemma executeNodes_view fuel flow ctx w w' :
  outcomeView (executeNodes fuel flow ctx w)
  = outcomeView (executeNodes fuel flow ctx w').
Proof.
  unfold executeNodes.
  destruct (List.find _ (nodes flow)); [apply traverse_view|reflexivity].
Qed.

(** ** Supervisor *)

Lemma cancelExecution_unknown id w :
  executions w !! id = None ->
  cancelExecution id w = (Throw (notFound "Execution not found"), w).
Proof. intros H. unfold cancelExecution, getExecutionById. rewrite H. reflexivity. Qed.

Lemma cancelExecution_rejected id w row :
  executions w !! id = Some row ->
  row_status row <> "pending" ->
  row_status row <> "running" ->
  cancelExecution id w = (Throw (badRequest "Execution cannot be cancelled"), w).
Proof.
  intros H Hp Hr. unfold cancelExecution, getExecutionById. rewrite H.
  apply String.eqb_neq in Hp, Hr. rewrite Hp, Hr. reflexivity.
Qed.

Lemma cancelExecution_accepted id w row :
  executions w !! id = Some row ->
  row_status row = "pending" \/ row_status row = "running" ->
  exists w',
    cancelExecution id w = (Ok (with_status "cancelled" row), w')
    /\ executions w' = alter (with_status "cancelled") id (executions w)
    /\ activeExecutions w' = activeExecutions w ∖ {[id]}
    /\ execution_logs w'
       = app (execution_logs w)
             [ {| log_execution_id := id; log_node_id := "system"; level := "info";
                  message := "Execution cancelled by user"; data := VObj [] |} ].
Proof.
  intros H Hst. unfold cancelExecution, getExecutionById. rewrite H.
  assert (Hg : negb (String.eqb (row_status row) "pending")
               && negb (String.eqb (row_status row) "running") = false).
  { destruct Hst as [-> | ->]; reflexivity. }
  rewrite Hg.
  exists (addExecutionLog id "system" "info" "Execution cancelled by user" None
            (set_active (fun s => s ∖ {[id]}) (updateExecutionStatus id "cancelled" w))).
  split; [|repeat split; reflexivity].
  cbn [addExecutionLog set_active updateExecutionStatus set_executions executions].
  rewrite lookup_alter_eq, H. reflexivity.
Qed.

(** C5, as the claim states it, fails. Execution x1 of start -> delay -> end is
    cancelled after the start node has run and before the delay node is
    entered; the run then finishes and overwrites cancelled with completed.
    And updateExecutionStatus moves a completed execution back to running
    without complaint. *)
Lemma cancelled_execution_is_overwritten :
  (exists ctx w2 data ctx1 w3 row w4 r ctx' w5,
      asyncBegin "x1" simpleFlow (VObj []) world1 = (Ok ctx, w2)
      /\ executeNodes 1 simpleFlow ctx w2
         = Running (node "d" "delay" None) data ctx1 w3
      /\ cancelExecution "x1" w3 = (Ok row, w4)
      /\ (row_status <$> executions w4 !! "x1") = Some "cancelled"
      /\ traverse 10 simpleFlow (node "d" "delay" None) data ctx1 w4
         = Finished r ctx' w5
      /\ (row_status <$> executions (asyncSettle r ctx' w5) !! "x1")
         = Some "completed")
  /\ (row_status <$>
        executions (updateExecutionStatus "x1" "running"
                      (set_executions (insert "x1" completedRow) world0)) !! "x1")
     = Some "running".
Proof.
  split.
  - do 10 eexists. split; [run|]. split; [run|]. split; [run|]. split; [run|].
    split; run.
  - run.
Qed.

(** C5, amended. The only terminal-state guard is the one in cancelExecution:
    an execution whose status is neither pending nor running (completed,
    failed and cancelled among them) cannot be cancelled; the request is
    rejected with the bad-request error "Execution cannot be cancelled" and
    nothing is written. updateExecutionStatus has no guard of its own: it
    writes the given status over whatever status the row has. *)
Theorem terminal_guard_is_in_cancel (id : string) (w : World) (row : ExecutionRow) :
  executions w !! id = Some row ->
  (row_status row <> "pending" -> row_status row <> "running" ->
   cancelExecution id w = (Throw (badRequest "Execution cannot be cancelled"), w))
  /\ (forall status,
        executions (updateExecutionStatus id status w) !! id
        = Some (with_status status row)).
Proof.
  intros H. split.
  - apply cancelExecution_rejected. exact H.
  - intros status. unfold updateExecutionStatus. simpl.
    rewrite lookup_alter_eq, H. reflexivity.
Qed.

Lemma terminal_guard_is_in_cancel_witness :
  cancelExecution "x1" (set_executions (insert "x1" completedRow) world0)
  = (Throw (badRequest "Execution cannot be cancelled"),
     set_executions (insert "x1" completedRow) world0).
Proof.
  apply (terminal_guard_is_in_cancel "x1"
           (set_executions (insert "x1" completedRow) world0) completedRow).
  - reflexivity.
  - discriminate.
  - discriminate.
Defined.

(** C6, as the claim states it, fails in its last part: execution x1 is
    cancelled when the loop is at the top of its second iteration, about to
    enter the delay node; the registry no longer holds it, and the loop still
    invokes the executors of the delay node and of the end node. *)
Lemma cancelled_run_keeps_executing :
  exists ctx w2 data ctx1 w3 row w4 ctx' w5,
    asyncBegin "x1" simpleFlow (VObj []) world1 = (Ok ctx, w2)
    /\ executeNodes 1 simpleFlow ctx w2
       = Running (node "d" "delay" None) data ctx1 w3
    /\ executionPath ctx1 = ["s"]
    /\ cancelExecution "x1" w3 = (Ok row, w4)
    /\ row_status row = "cancelled"
    /\ elements (activeExecutions w4) = []
    /\ traverse 10 simpleFlow (node "d" "delay" None) data ctx1 w4
       = Finished (Ok (VObj [])) ctx' w5
    /\ executionPath ctx' = ["s"; "d"; "e"]
    /\ List.map message
         (List.filter (fun l => negb (String.eqb (log_node_id l) "s"))
                      (execution_logs w5))
       = ["Flow execution started"; "Execution cancelled by user";
          "Executing node: d"; "Node executed successfully";
          "Executing node: e"; "Node executed successfully"].
Proof.
  do 9 eexists. split; [run|]. split; [run|]. split; [run|]. split; [run|].
  split; [run|]. split; [run|]. split; [run|]. split; run.
Qed.

(** C6, amended. cancelExecution fails with NotFound for an unknown id and
    with the bad-request error "Execution cannot be cancelled" when the status
    is neither pending nor running, writing nothing in either case. For a
    pending or running execution it sets the status to cancelled and removes
    the id from the registry of active executions. The traversal loop never
    reads the status or the registry: what executeNodes returns and does to
    the context is the same after the cancellation as before it. *)
Theorem cancelExecution_outcomes (id : string) (w : World) :
  match executions w !! id with
  | None => cancelExecution id w = (Throw (notFound "Execution not found"), w)
  | Some row =>
      if String.eqb (row_status row) "pending" || String.eqb (row_status row) "running"
      then
        exists w',
          cancelExecution id w = (Ok (with_status "cancelled" row), w')
          /\ executions w' !! id = Some (with_status "cancelled" row)
          /\ activeExecutions w' = activeExecutions w ∖ {[id]}
          /\ forall fuel flow ctx,
               outcomeView (executeNodes fuel flow ctx w')
               = outcomeView (executeNodes fuel flow ctx w)
      else
        cancelExecution id w = (Throw (badRequest "Execution cannot be cancelled"), w)
  end.
Proof.
  destruct (executions w !! id) as [row|] eqn:H.
  - destruct (String.eqb (row_status row) "pending") eqn:Hp;
      [|destruct (String.eqb (row_status row) "running") eqn:Hr]; simpl.
    + apply String.eqb_eq in Hp.
      destruct (cancelExecution_accepted id w row H (or_introl Hp))
        as (w' & Heq & He & Ha & _).
      exists w'. split; [exact Heq|]. split.
      { rewrite He, lookup_alter_eq, H. reflexivity. }
      split; [exact Ha|]. intros. apply executeNodes_view.
    + apply String.eqb_eq in Hr.
      destruct (cancelExecution_accepted id w row H (or_intror Hr))
        as (w' & Heq & He & Ha & _).
      exists w'. split; [exact Heq|]. split.
      { rewrite He, lookup_alter_eq, H. reflexivity. }
      split; [exact Ha|]. intros. apply executeNodes_view.
    + apply String.eqb_neq in Hp, Hr.
      apply (cancelExecution_rejected id w row H Hp Hr).
  - apply cancelExecution_unknown. exact H.
Qed.

Lemma insertExecution_created_at v w :
  ins_created_at v = false -> exists e, insertExecution v w = Throw e.
Proof.
  intros H. unfold insertExecution. rewrite H.
  destruct (ins_flow_id v); eexists; reflexivity.
Qed.

Lemma executeFlow_cases request uuid w :
  executeFlow request uuid w
  = (Throw match flows w !! req_flowId request with
           | None => notFound "Flow not found"
           | Some flow =>
               if String.eqb (flow_status flow) "published"
               then internal "Failed to start execution"
               else badRequest "Only published flows can be executed"
           end, w, None).
Proof.
  unfold executeFlow.
  destruct (flows w !! req_flowId request) as [flow|]; [|reflexivity].
  destruct (String.eqb (flow_status flow) "published"); [|reflexivity].
  cbn [negb].
  match goal with
  | |- context [insertExecution ?v w] =>
      destruct (insertExecution_created_at v w eq_refl) as [e ->]
  end.
  reflexivity.
Qed.

(** C7, as the claim states it, fails. The flow without nodes does not pass
    validateFlowStructure, and executeFlow gives no validation error for it:
    as a draft it is refused with "Only published flows can be executed", and
    published it gets the internal error "Failed to start execution", which is
    just what the valid flow start -> delay -> end gets. No request is
    answered with pending. *)
Lemma invalid_flow_gets_no_validation_error :
  let request := {| req_flowId := "f1"; req_inputData := VUndefined |} in
  (isValid <$> validateFlowStructure (nodes emptyFlow) (connections emptyFlow))
  = Some false
  /\ (isValid <$> validateFlowStructure (nodes draftEmptyFlow) (connections draftEmptyFlow))
     = Some false
  /\ executeFlow request "x1" (worldWithFlow draftEmptyFlow)
     = (Throw (ApiError 400 "BAD_REQUEST" "Only published flows can be executed"),
        worldWithFlow draftEmptyFlow, None)
  /\ executeFlow request "x1" worldWithEmptyFlow
     = (Throw (ApiError 500 "INTERNAL_ERROR" "Failed to start execution"),
        worldWithFlow emptyFlow, None)
  /\ (isValid <$> validateFlowStructure (nodes simpleFlow) (connections simpleFlow))
     = Some true
  /\ executeFlow request "x1" (worldWithFlow simpleFlow)
     = (Throw (ApiError 500 "INTERNAL_ERROR" "Failed to start execution"),
        worldWithFlow simpleFlow, None).
Proof.
  cbv zeta. split; [run|]. split; [run|]. split; [run|]. split; [run|].
  split; run.
Qed.

(** C7, amended. executeFlow does not validate the graph: its outcome does
    not depend on the flow's nodes and connections, and none of its errors is
    a validation error. It fails with NotFound when the flow id is unknown and
    with the bad-request error "Only published flows can be executed" when the
    flow's status is not published; its only other error is the internal
    error "Failed to start execution" that its catch makes of a failed INSERT.
    Whenever it fails it writes nothing and launches no run, and in no case
    does it touch the registry of active executions. *)
Theorem executeFlow_outcomes (request : ExecuteFlowRequest) (uuid : string) (w : World) :
  match flows w !! req_flowId request with
  | None => executeFlow request uuid w = (Throw (notFound "Flow not found"), w, None)
  | Some flow =>
      flow_status flow <> "published" ->
      executeFlow request uuid w
      = (Throw (badRequest "Only published flows can be executed"), w, None)
  end
  /\ (forall e w' task,
        executeFlow request uuid w = (Throw e, w', task) ->
        w' = w /\ task = None
        /\ (e = notFound "Flow not found"
            \/ e = badRequest "Only published flows can be executed"
            \/ e = internal "Failed to start execution"))
  /\ activeExecutions (snd (fst (executeFlow request uuid w))) = activeExecutions w
  /\ (forall w2,
        executions w2 = executions w ->
        (flow_status <$> flows w2 !! req_flowId request)
        = (flow_status <$> flows w !! req_flowId request) ->
        fst (fst (executeFlow request uuid w2)) = fst (fst (executeFlow request uuid w))).
Proof.
  split; [|split; [|split]].
  - rewrite executeFlow_cases.
    destruct (flows w !! req_flowId request) as [flow|]; [|reflexivity].
    intros Hst. apply String.eqb_neq in Hst. rewrite Hst. reflexivity.
  - intros e w' task. rewrite executeFlow_cases. intros [= <- <- <-].
    split; [reflexivity|]. split; [reflexivity|].
    destruct (flows w !! req_flowId request) as [flow|]; [|auto].
    destruct (String.eqb (flow_status flow) "published"); auto.
  - rewrite executeFlow_cases. reflexivity.
  - intros w2 _ Hst. rewrite !executeFlow_cases. cbn [fst].
    destruct (flows w2 !! req_flowId request) as [f2|],
             (flows w !! req_flowId request) as [f|];
      try discriminate; [|reflexivity].
    injection Hst as ->. reflexivity.
Qed.

Lemma executeFlow_outcomes_witness :
  let request := {| req_flowId := "f1"; req_inputData := VUndefined |} in
  executeFlow request "x1" (worldWithFlow draftEmptyFlow)
  = (Throw (badRequest "Only published flows can be executed"),
     worldWithFlow draftEmptyFlow, None)
  /\ fst (fst (executeFlow request "x1" worldWithEmptyFlow))
     = fst (fst (executeFlow request "x1" (worldWithFlow simpleFlow))).
Proof.
  cbv zeta. split.
  - pose proof (proj1 (executeFlow_outcomes
                         {| req_flowId := "f1"; req_inputData := VUndefined |} "x1"
                         (worldWithFlow draftEmptyFlow))) as H.
    change (flows (worldWithFlow draftEmptyFlow)
              !! req_flowId {| req_flowId := "f1"; req_inputData := VUndefined |})
      with (Some draftEmptyFlow) in H.
    cbv beta iota in H. apply H. discriminate.
  - apply (proj2 (proj2 (proj2 (executeFlow_outcomes
                    {| req_flowId := "f1"; req_inputData := VUndefined |} "x1"
                    (worldWithFlow simpleFlow))))).
    + reflexivity.
    + reflexivity.
Defined.

(** ** validateFlowStructure: the cycle check returns *)

Lemma size_list_to_set_le (l : list string) :
  size (list_to_set l : gset string) <= length l.
Proof.
  induction l as [|x l IH].
  - rewrite list_to_set_nil, size_empty. simpl. lia.
  - rewrite list_to_set_cons, size_union_alt, size_singleton. simpl.
    assert (size (list_to_set l ∖ {[x]} : gset string) <= size (list_to_set l : gset string))
      by (apply subseteq_size; set_solver).
    lia.
Qed.

Lemma size_list_to_set_NoDup (l : list string) :
  size (list_to_set l : gset string) = length l <-> NoDup l.
Proof.
  split; [|apply size_list_to_set].
  induction l as [|x l IH]; intros H; [constructor|].
  rewrite list_to_set_cons in H. simpl in H.
  destruct (decide (x ∈ l)) as [Hin|Hin].
  - exfalso.
    assert (Heq : ({[x]} ∪ list_to_set l : gset string) = list_to_set l) by set_solver.
    rewrite Heq in H. pose proof (size_list_to_set_le l). lia.
  - constructor; [exact Hin|]. apply IH.
    rewrite size_union, size_singleton in H by set_solver. lia.
Qed.

Lemma neighborsOf_in_graphIds g k n :
  n ∈ neighborsOf k g -> n ∈ graphIds g.
Proof.
  unfold neighborsOf, graph_get, graphIds. intros Hn.
  destruct (List.find _ g) as [entry|] eqn:Hf; [|inversion Hn].
  apply List.find_some in Hf. destruct Hf as [Hf _].
  apply elem_of_app. right. apply list_elem_of_In, in_concat.
  exists (snd entry). split; [apply in_map; exact Hf|].
  apply list_elem_of_In. exact Hn.
Qed.

Section DfsReturns.
Variable graph : list (string * list string).

Let ids : gset string := list_to_set (graphIds graph).

Lemma unvisited_shrinks (nodeId : string) (seen : gset string) :
  nodeId ∈ ids -> nodeId ∉ seen ->
  size (ids ∖ ({[nodeId]} ∪ seen)) < size (ids ∖ seen).
Proof.
  intros Hin Hnot. apply subset_size. split; [set_solver|].
  intros Hsub. specialize (Hsub nodeId). set_solver.
Qed.

Lemma forNeighbors_returns fuel
    (IH : forall nodeId st, nodeId ∈ ids -> size (ids ∖ visited st) < fuel ->
          exists b st', dfs fuel graph nodeId st = Some (b, st')
                        /\ visited st ⊆ visited st') :
  forall neighbors st,
    (forall n, n ∈ neighbors -> n ∈ ids) ->
    size (ids ∖ visited st) < fuel ->
    exists b st', forNeighbors (dfs fuel graph) neighbors st = Some (b, st')
                  /\ visited st ⊆ visited st'.
Proof.
  induction neighbors as [|n rest IHn]; intros st Hall Hsz.
  - exists false, st. split; [reflexivity|set_solver].
  - simpl.
    destruct (IH n st) as (b & st' & Heq & Hsub); [apply Hall; left|exact Hsz|].
    rewrite Heq. destruct b.
    + exists true, st'. split; [reflexivity|exact Hsub].
    + destruct (IHn st') as (b' & st'' & Heq' & Hsub').
      * intros m Hm. apply Hall. right. exact Hm.
      * assert (size (ids ∖ visited st') <= size (ids ∖ visited st))
          by (apply subseteq_size; set_solver).
        lia.
      * exists b', st''. split; [exact Heq'|set_solver].
Qed.

Lemma dfs_returns fuel : forall nodeId st,
  nodeId ∈ ids -> size (ids ∖ visited st) < fuel ->
  exists b st', dfs fuel graph nodeId st = Some (b, st')
                /\ visited st ⊆ visited st'.
Proof.
  induction fuel as [|fuel IH]; intros nodeId st Hin Hsz; [lia|].
  cbn [dfs].
  destruct (decide (nodeId ∈ recursionStack st));
    [exists true, st; split; [reflexivity|set_solver]|].
  destruct (decide (nodeId ∈ visited st)) as [|Hnv];
    [exists false, st; split; [reflexivity|set_solver]|].
  destruct (forNeighbors_returns fuel IH (neighborsOf nodeId graph)
              {| visited := {[nodeId]} ∪ visited st;
                 recursionStack := {[nodeId]} ∪ recursionStack st |})
    as (b & st2 & Heq & Hsub).
  - intros m Hm. apply elem_of_list_to_set.
    apply (neighborsOf_in_graphIds graph nodeId). exact Hm.
  - simpl. pose proof (unvisited_shrinks nodeId (visited st) Hin Hnv). lia.
  - rewrite Heq. simpl in Hsub. destruct b.
    + exists true, st2. split; [reflexivity|set_solver].
    + eexists false, _. split; [reflexivity|]. simpl. set_solver.
Qed.

Lemma forKeys_returns fuel : forall keys st,
  (forall k, k ∈ keys -> k ∈ ids) ->
  size (ids ∖ visited st) < fuel ->
  exists b, forKeys (dfs fuel graph) keys st = Some b.
Proof.
  induction keys as [|k rest IHk]; intros st Hall Hsz.
  - exists false. reflexivity.
  - simpl. destruct (decide (k ∈ visited st)).
    + apply IHk; [intros m Hm; apply Hall; right; exact Hm|exact Hsz].
    + destruct (dfs_returns fuel k st) as (b & st' & Heq & Hsub);
        [apply Hall; left|exact Hsz|].
      rewrite Heq. destruct b; [exists true; reflexivity|].
      apply IHk; [intros m Hm; apply Hall; right; exact Hm|].
      assert (size (ids ∖ visited st') <= size (ids ∖ visited st))
        by (apply subseteq_size; set_solver).
      lia.
Qed.
End DfsReturns.

(** hasCircularDependency always returns: the fuel it is given is enough. *)
Lemma hasCircularDependency_returns nodes connections :
  exists cyclic, hasCircularDependency nodes connections = Some cyclic.
Proof.
  unfold hasCircularDependency.
  apply forKeys_returns.
  - intros k Hk. apply elem_of_list_to_set. unfold graphIds.
    apply elem_of_app. left. exact Hk.
  - simpl.
    pose proof (size_list_to_set_le (graphIds (buildGraph nodes connections))).
    assert (size (list_to_set (graphIds (buildGraph nodes connections)) ∖ ∅ : gset string)
            <= size (list_to_set (graphIds (buildGraph nodes connections)) : gset string))
      by (apply subseteq_size; set_solver).
    lia.
Qed.

(** ** validateFlowStructure: a reported cycle is a cycle *)

Lemma graph_get_set x k v g :
  graph_get x (graph_set k v g) = if String.eqb k x then Some v else graph_get x g.
Proof.
  unfold graph_get. induction g as [|[k' v'] g IH]; simpl.
  - destruct (String.eqb k x); reflexivity.
  - destruct (String.eqb k' k) eqn:Hk; simpl.
    + apply String.eqb_eq in Hk. subst k'.
      destruct (String.eqb k x); reflexivity.
    + destruct (String.eqb k' x) eqn:Hx; simpl.
      * apply String.eqb_eq in Hx. subst k'.
        rewrite String.eqb_sym, Hk. reflexivity.
      * exact IH.
Qed.

Lemma neighborsOf_set x k v g :
  neighborsOf x (graph_set k v g) = if String.eqb k x then v else neighborsOf x g.
Proof.
  unfold neighborsOf. rewrite graph_get_set. destruct (String.eqb k x); reflexivity.
Qed.

Lemma neighborsOf_nodes x (ns : list FlowNode) : forall g,
  neighborsOf x g = [] ->
  neighborsOf x (fold_left (fun g node => graph_set (node_id node) [] g) ns g) = [].
Proof.
  induction ns as [|n ns IH]; intros g Hg; [exact Hg|].
  simpl. apply IH. rewrite neighborsOf_set. destruct (String.eqb _ x); auto.
Qed.

Lemma neighborsOf_connections x (cs : list FlowConnection) : forall g,
  neighborsOf x
    (fold_left
       (fun g connection =>
          graph_set (sourceNodeId connection)
            (app (neighborsOf (sourceNodeId connection) g) [targetNodeId connection]) g)
       cs g)
  = app (neighborsOf x g)
        (map targetNodeId
             (List.filter (fun c => String.eqb (sourceNodeId c) x) cs)).
Proof.
  induction cs as [|c cs IH]; intros g; simpl.
  - rewrite app_nil_r. reflexivity.
  - rewrite IH, neighborsOf_set.
    destruct (String.eqb (sourceNodeId c) x) eqn:Hc; simpl.
    + apply String.eqb_eq in Hc. subst x. rewrite <- app_assoc. reflexivity.
    + reflexivity.
Qed.

(** The adjacency lists of the graph are the connections' targets, per
    source, in declaration order. *)
Lemma neighborsOf_buildGraph x nodes connections :
  neighborsOf x (buildGraph nodes connections)
  = map targetNodeId
        (List.filter (fun c => String.eqb (sourceNodeId c) x) connections).
Proof.
  unfold buildGraph. rewrite neighborsOf_connections.
  rewrite neighborsOf_nodes; reflexivity.
Qed.

Lemma neighbor_connected x y nodes connections :
  y ∈ neighborsOf x (buildGraph nodes connections) <-> connected connections x y.
Proof.
  rewrite neighborsOf_buildGraph, list_elem_of_In, in_map_iff. unfold connected.
  split.
  - intros (c & Ht & Hc). apply filter_In in Hc. destruct Hc as [Hin Hs].
    apply String.eqb_eq in Hs. eauto.
  - intros (c & Hin & Hs & Ht). exists c. split; [exact Ht|].
    apply filter_In. split; [exact Hin|]. apply String.eqb_eq. exact Hs.
Qed.

Section DfsSound.
Variable graph : list (string * list string).

Let edge (x y : string) : Prop := y ∈ neighborsOf x graph.

(** Every node on the recursion stack reaches the node being entered. *)
Lemma forNeighbors_sound fuel
    (IH : forall nodeId st b st',
          dfs fuel graph nodeId st = Some (b, st') ->
          (forall x, x ∈ recursionStack st -> tc edge x nodeId) ->
          (b = true -> exists z, tc edge z z)
          /\ (b = false -> recursionStack st' = recursionStack st))
    (parent : string) :
  forall neighbors st b st',
    (forall n, n ∈ neighbors -> edge parent n) ->
    forNeighbors (dfs fuel graph) neighbors st = Some (b, st') ->
    (forall x, x ∈ recursionStack st -> rtc edge x parent) ->
    (b = true -> exists z, tc edge z z)
    /\ (b = false -> recursionStack st' = recursionStack st).
Proof.
  induction neighbors as [|n rest IHn]; intros st b st' Hedge Heq Hinv.
  - simpl in Heq. injection Heq as <- <-. split; [discriminate|reflexivity].
  - simpl in Heq.
    destruct (dfs fuel graph n st) as [[b1 st1]|] eqn:Hd; [|discriminate].
    destruct (IH n st b1 st1 Hd) as [Ht Hf].
    { intros x Hx. eapply tc_rtc_l; [apply Hinv; exact Hx|].
      apply tc_once. apply Hedge. left. }
    destruct b1.
    + injection Heq as <- <-. split; [intros _; apply Ht; reflexivity|discriminate].
    + specialize (Hf eq_refl).
      destruct (IHn st1 b st') as [Ht' Hf'].
      * intros m Hm. apply Hedge. right. exact Hm.
      * exact Heq.
      * rewrite Hf. exact Hinv.
      * split; [exact Ht'|]. intros Hb. rewrite (Hf' Hb). exact Hf.
Qed.

Lemma dfs_sound fuel : forall nodeId st b st',
  dfs fuel graph nodeId st = Some (b, st') ->
  (forall x, x ∈ recursionStack st -> tc edge x nodeId) ->
  (b = true -> exists z, tc edge z z)
  /\ (b = false -> recursionStack st' = recursionStack st).
Proof.
  induction fuel as [|fuel IH]; intros nodeId st b st' Heq Hinv; [discriminate|].
  cbn [dfs] in Heq.
  destruct (decide (nodeId ∈ recursionStack st)) as [Hin|Hnin].
  { injection Heq as <- <-. split; [|discriminate].
    intros _. exists nodeId. apply Hinv. exact Hin. }
  destruct (decide (nodeId ∈ visited st)).
  { injection Heq as <- <-. split; [discriminate|reflexivity]. }
  destruct (forNeighbors _ _ _) as [[b2 st2]|] eqn:Hn; [|discriminate].
  destruct (forNeighbors_sound fuel IH nodeId _ _ _ _ (fun n H => H) Hn) as [Ht Hf].
  { simpl. intros x Hx. apply elem_of_union in Hx. destruct Hx as [Hx|Hx].
    - apply elem_of_singleton in Hx. subst x. apply rtc_refl.
    - apply tc_rtc. apply Hinv. exact Hx. }
  destruct b2.
  - injection Heq as <- <-. split; [intros _; apply Ht; reflexivity|discriminate].
  - injection Heq as <- <-. split; [discriminate|]. intros _.
    simpl. rewrite (Hf eq_refl). simpl. set_solver.
Qed.

Lemma forKeys_sound fuel : forall keys st,
  recursionStack st = ∅ ->
  forKeys (dfs fuel graph) keys st = Some true ->
  exists z, tc edge z z.
Proof.
  induction keys as [|k rest IHk]; intros st Hst Heq; [discriminate|].
  simpl in Heq. destruct (decide (k ∈ visited st)); [eauto|].
  destruct (dfs fuel graph k st) as [[b st']|] eqn:Hd; [|discriminate].
  destruct (dfs_sound fuel k st b st' Hd) as [Ht Hf].
  { intros x Hx. rewrite Hst in Hx. set_solver. }
  destruct b; [apply Ht; reflexivity|].
  apply (IHk st'); [|exact Heq]. rewrite (Hf eq_refl). exact Hst.
Qed.
End DfsSound.

Lemma tc_neighbors_connected nodes connections x y :
  tc (fun a b => b ∈ neighborsOf a (buildGraph nodes connections)) x y ->
  tc (connected connections) x y.
Proof.
  induction 1 as [a b H|a b c H _ IH].
  - apply tc_once. apply (neighbor_connected a b nodes). exact H.
  - eapply tc_l; [|exact IH]. apply (neighbor_connected a b nodes). exact H.
Qed.

(** When hasCircularDependency answers true, the connections have a cycle. *)
Lemma hasCircularDependency_sound nodes connections :
  hasCircularDependency nodes connections = Some true -> hasCycle connections.
Proof.
  unfold hasCircularDependency. intros H.
  apply forKeys_sound in H; [|reflexivity].
  destruct H as [z Hz]. exists z.
  apply (tc_neighbors_connected nodes). exact Hz.
Qed.

(** ** validateFlowStructure: a cycle is always reported *)

Section DfsComplete.
Variable graph : list (string * list string).

Let edge (x y : string) : Prop := y ∈ neighborsOf x graph.

(** The nodes that dfs has left again: visited and no longer on the stack.
    While no cycle has been reported they are closed under the edges and
    none of them lies on a cycle. *)
Let settled (st : DfsState) : gset string := visited st ∖ recursionStack st.

Let settledInv (st : DfsState) : Prop :=
  forall v, v ∈ settled st ->
    (forall u, edge v u -> u ∈ settled st) /\ ~ tc edge v v.

Let post (nodeId : string) (st st' : DfsState) : Prop :=
  settledInv st' /\ recursionStack st' = recursionStack st
  /\ visited st ⊆ visited st' /\ nodeId ∈ settled st'.

Lemma closed_rtc (st : DfsState) (u v : string) :
  settledInv st -> rtc edge u v -> u ∈ settled st -> v ∈ settled st.
Proof.
  intros Hinv Hr. induction Hr as [|x y z Hxy _ IH]; [auto|].
  intros Hx. apply IH. apply (Hinv x Hx). exact Hxy.
Qed.

Lemma tc_first (x z : string) :
  tc edge x z -> exists u, edge x u /\ rtc edge u z.
Proof.
  intros H. inversion H as [? ? Hxz|? y ? Hxy Hyz]; subst.
  - exists z. split; [exact Hxz|apply rtc_refl].
  - exists y. split; [exact Hxy|apply tc_rtc; exact Hyz].
Qed.

Lemma forNeighbors_complete fuel
    (IH : forall nodeId st st',
          dfs fuel graph nodeId st = Some (false, st') ->
          settledInv st -> post nodeId st st') :
  forall neighbors st st',
    forNeighbors (dfs fuel graph) neighbors st = Some (false, st') ->
    settledInv st ->
    settledInv st' /\ recursionStack st' = recursionStack st
    /\ visited st ⊆ visited st'
    /\ forall n, n ∈ neighbors -> n ∈ settled st'.
Proof.
  induction neighbors as [|n rest IHn]; intros st st' Heq Hinv.
  - simpl in Heq. injection Heq as <-.
    split; [exact Hinv|]. split; [reflexivity|]. split; [set_solver|].
    intros m Hm. inversion Hm.
  - simpl in Heq.
    destruct (dfs fuel graph n st) as [[b1 st1]|] eqn:Hd; [|discriminate].
    destruct b1; [discriminate|].
    destruct (IH n st st1 Hd Hinv) as (Hinv1 & Hs1 & Hv1 & Hn1).
    destruct (IHn st1 st' Heq Hinv1) as (Hinv' & Hs' & Hv' & Hrest).
    split; [exact Hinv'|]. split; [congruence|]. split; [set_solver|].
    intros m Hm. apply elem_of_cons in Hm. destruct Hm as [->|Hm]; [|auto].
    unfold settled in *. rewrite Hs'. set_solver.
Qed.

Lemma dfs_complete fuel : forall nodeId st st',
  dfs fuel graph nodeId st = Some (false, st') ->
  settledInv st -> post nodeId st st'.
Proof.
  induction fuel as [|fuel IH]; intros nodeId st st' Heq Hinv; [discriminate|].
  cbn [dfs] in Heq.
  destruct (decide (nodeId ∈ recursionStack st)) as [|Hns]; [discriminate|].
  destruct (decide (nodeId ∈ visited st)) as [Hv|Hnv].
  { injection Heq as <-. split; [exact Hinv|]. split; [reflexivity|].
    split; [set_solver|]. unfold settled. set_solver. }
  destruct (forNeighbors _ _ _) as [[b2 st2]|] eqn:Hn; [|discriminate].
  destruct b2; [discriminate|]. injection Heq as <-.
  destruct (forNeighbors_complete fuel IH _ _ _ Hn) as (Hinv2 & Hs2 & Hv2 & Hnb).
  { intros v Hv. unfold settled in Hv. simpl in Hv.
    assert (Hv' : v ∈ settled st) by (unfold settled; set_solver).
    destruct (Hinv v Hv') as [Hc Ha]. split; [|exact Ha].
    intros u Hu. specialize (Hc u Hu). unfold settled in *. simpl. set_solver. }
  simpl in Hs2, Hv2.
  assert (Hnot : nodeId ∉ settled st2) by (unfold settled; rewrite Hs2; set_solver).
  assert (Hgrow : forall x, x ∈ settled st2 ->
            x ∈ settled {| visited := visited st2;
                           recursionStack := recursionStack st2 ∖ {[nodeId]} |})
    by (intros x; unfold settled; simpl; set_solver).
  split; [|split; [simpl; rewrite Hs2; set_solver|split; [simpl; set_solver|]]].
  - intros v Hv.
    destruct (decide (v = nodeId)) as [->|Hne].
    + split.
      * intros u Hu. apply Hgrow. apply Hnb. exact Hu.
      * intros Hcyc. apply tc_first in Hcyc. destruct Hcyc as (u & Hu & Hr).
        apply Hnot. apply (closed_rtc st2 u nodeId Hinv2 Hr). apply Hnb. exact Hu.
    + assert (Hv2' : v ∈ settled st2)
        by (unfold settled in *; simpl in Hv; rewrite Hs2; set_solver).
      destruct (Hinv2 v Hv2') as [Hc Ha]. split; [|exact Ha].
      intros u Hu. apply Hgrow. apply Hc. exact Hu.
  - unfold settled. simpl. rewrite Hs2. set_solver.
Qed.

Lemma forKeys_complete fuel : forall keys st,
  forKeys (dfs fuel graph) keys st = Some false ->
  settledInv st -> recursionStack st = ∅ ->
  exists st', settledInv st' /\ recursionStack st' = ∅
              /\ visited st ⊆ visited st'
              /\ forall k, k ∈ keys -> k ∈ visited st'.
Proof.
  induction keys as [|k rest IHk]; intros st Heq Hinv Hst.
  - exists st. split; [exact Hinv|]. split; [exact Hst|]. split; [set_solver|].
    intros k Hk. inversion Hk.
  - simpl in Heq. destruct (decide (k ∈ visited st)) as [Hv|Hnv].
    + destruct (IHk st Heq Hinv Hst) as (st' & Hinv' & Hst' & Hsub & Hk').
      exists st'. split; [exact Hinv'|]. split; [exact Hst'|].
      split; [exact Hsub|].
      intros m Hm. apply elem_of_cons in Hm. destruct Hm as [->|Hm]; auto.
    + destruct (dfs fuel graph k st) as [[b st1]|] eqn:Hd; [|discriminate].
      destruct b; [discriminate|].
      destruct (dfs_complete fuel k st st1 Hd Hinv) as (Hinv1 & Hs1 & Hv1 & Hk1).
      destruct (IHk st1 Heq Hinv1) as (st' & Hinv' & Hst' & Hsub & Hk');
        [congruence|].
      exists st'. split; [exact Hinv'|]. split; [exact Hst'|].
      split; [set_solver|].
      intros m Hm. apply elem_of_cons in Hm. destruct Hm as [->|Hm]; [|auto].
      unfold settled in Hk1. set_solver.
Qed.

Lemma neighborsOf_key (x y : string) :
  y ∈ neighborsOf x graph -> x ∈ map fst graph.
Proof.
  unfold neighborsOf, graph_get. intros Hy.
  destruct (List.find _ graph) as [entry|] eqn:Hf; [|inversion Hy].
  apply List.find_some in Hf. destruct Hf as [Hin Hk].
  apply String.eqb_eq in Hk. subst x.
  apply list_elem_of_In, in_map. exact Hin.
Qed.

Lemma forKeys_no_cycle fuel :
  forKeys (dfs fuel graph) (map fst graph) {| visited := ∅; recursionStack := ∅ |}
  = Some false ->
  forall z, ~ tc edge z z.
Proof.
  intros Heq z Hz.
  destruct (forKeys_complete fuel _ _ Heq) as (st' & Hinv & Hst & _ & Hkeys).
  - intros v Hv. unfold settled in Hv. simpl in Hv. set_solver.
  - reflexivity.
  - destruct (tc_first z z Hz) as (u & Hu & _).
    assert (Hin : z ∈ settled st').
    { unfold settled. rewrite Hst.
      pose proof (Hkeys z (neighborsOf_key z u Hu)). set_solver. }
    apply (Hinv z Hin). exact Hz.
Qed.
End DfsComplete.

Lemma tc_connected_neighbors nodes connections x y :
  tc (connected connections) x y ->
  tc (fun a b => b ∈ neighborsOf a (buildGraph nodes connections)) x y.
Proof.
  induction 1 as [a b H|a b c H _ IH].
  - apply tc_once. apply (neighbor_connected a b nodes). exact H.
  - eapply tc_l; [|exact IH]. simpl. apply (neighbor_connected a b nodes). exact H.
Qed.

(** When hasCircularDependency answers false, the connections have no cycle. *)
Lemma hasCircularDependency_complete nodes connections :
  hasCircularDependency nodes connections = Some false -> ~ hasCycle connections.
Proof.
  unfold hasCircularDependency. intros H [z Hz].
  apply (forKeys_no_cycle _ _ H z).
  apply tc_connected_neighbors. exact Hz.
Qed.

(** The cycle check decides whether the connections have a cycle. *)
Lemma hasCircularDependency_decides nodes connections :
  exists cyclic,
    hasCircularDependency nodes connections = Some cyclic
    /\ (cyclic = true <-> hasCycle connections).
Proof.
  destruct (hasCircularDependency_returns nodes connections) as [cyclic H].
  exists cyclic. split; [exact H|]. destruct cyclic.
  - split; [intros _; apply (hasCircularDependency_sound nodes); exact H|reflexivity].
  - split; [discriminate|].
    intros Hc. exfalso. apply (hasCircularDependency_complete nodes connections H Hc).
Qed.

(** ** validateFlowStructure: the list of violations *)

Lemma hasNode_In nodes id : hasNode nodes id = true <-> In id (map node_id nodes).
Proof.
  unfold hasNode. rewrite existsb_exists, in_map_iff. split.
  - intros (n & Hin & Heq). apply String.eqb_eq in Heq. eauto.
  - intros (n & Heq & Hin). exists n. split; [exact Hin|]. apply String.eqb_eq. exact Heq.
Qed.

Lemma hasNode_not_In nodes id : hasNode nodes id = false <-> ~ In id (map node_id nodes).
Proof.
  rewrite <- hasNode_In. destruct (hasNode nodes id); split; congruence.
Qed.

Lemma startErrors_cases nodes :
  (countType "start" nodes = 0
   /\ startErrors nodes = ["Flow must have at least one start node"])
  \/ (1 < countType "start" nodes
      /\ startErrors nodes = ["Flow can only have one start node"])
  \/ (countType "start" nodes = 1 /\ startErrors nodes = []).
Proof.
  unfold startErrors, countType.
  destruct (Nat.eqb_spec (length (List.filter
             (fun node => String.eqb (node_type node) "start") nodes)) 0) as [H0|H0];
    [left; auto|].
  destruct (Nat.ltb_spec 1 (length (List.filter
             (fun node => String.eqb (node_type node) "start") nodes))) as [H1|H1];
    [right; left; auto|].
  right; right. split; [lia|reflexivity].
Qed.

Lemma endErrors_cases nodes :
  (countType "end" nodes = 0
   /\ endErrors nodes = ["Flow must have at least one end node"])
  \/ (1 <= countType "end" nodes /\ endErrors nodes = []).
Proof.
  unfold endErrors, countType.
  destruct (Nat.eqb_spec (length (List.filter
             (fun node => String.eqb (node_type node) "end") nodes)) 0) as [H0|H0];
    [left; auto|right; split; [lia|reflexivity]].
Qed.

Lemma idErrors_cases nodes :
  (~ NoDup (map node_id nodes) /\ idErrors nodes = ["Node IDs must be unique"])
  \/ (NoDup (map node_id nodes) /\ idErrors nodes = []).
Proof.
  unfold idErrors.
  destruct (Nat.eqb_spec (length (map node_id nodes))
              (size (list_to_set (map node_id nodes) : gset string))) as [H|H]; simpl.
  - right. split; [|reflexivity]. apply size_list_to_set_NoDup. congruence.
  - left. split; [|reflexivity]. intros Hnd. apply H.
    symmetry. apply size_list_to_set_NoDup. exact Hnd.
Qed.

Lemma connectionErrors_source nodes c :
  ~ In (sourceNodeId c) (map node_id nodes) ->
  In ("Connection source node " ++ sourceNodeId c ++ " does not exist")
     (connectionErrors nodes c).
Proof.
  intros H. apply hasNode_not_In in H. unfold connectionErrors. rewrite H.
  left. reflexivity.
Qed.

Lemma connectionErrors_target nodes c :
  ~ In (targetNodeId c) (map node_id nodes) ->
  In ("Connection target node " ++ targetNodeId c ++ " does not exist")
     (connectionErrors nodes c).
Proof.
  intros H. apply hasNode_not_In in H. unfold connectionErrors. rewrite H.
  apply in_or_app. right. left. reflexivity.
Qed.

Lemma connectionErrors_nil nodes c :
  connectionErrors nodes c = []
  <-> In (sourceNodeId c) (map node_id nodes) /\ In (targetNodeId c) (map node_id nodes).
Proof.
  rewrite <- !hasNode_In. unfold connectionErrors.
  destruct (hasNode nodes (sourceNodeId c)), (hasNode nodes (targetNodeId c));
    simpl; split; intros H; try discriminate; try (destruct H; discriminate); auto.
Qed.

Lemma flat_map_nil {A B} (f : A -> list B) (l : list A) :
  flat_map f l = [] <-> forall x, In x l -> f x = [].
Proof.
  induction l as [|a l IH]; simpl.
  - split; [intros _ x []|reflexivity].
  - split.
    + intros H. apply app_eq_nil in H. destruct H as [Ha Hl].
      intros x [<-|Hx]; [exact Ha|]. apply IH; assumption.
    + intros H. rewrite (H a (or_introl eq_refl)). simpl.
      apply IH. intros x Hx. apply H. right. exact Hx.
Qed.

(** C9, as the claim states it, fails in its last part: start -> a, a -> a,
    a -> end has exactly one start node, an end node, distinct node ids and
    connections between existing nodes only, and validateFlowStructure still
    returns a violation. *)
Lemma cyclic_flow_is_rejected :
  countType "start" (nodes cyclicFlow) = 1
  /\ countType "end" (nodes cyclicFlow) = 1
  /\ NoDup (map node_id (nodes cyclicFlow))
  /\ forallb (fun c => hasNode (nodes cyclicFlow) (sourceNodeId c)
                       && hasNode (nodes cyclicFlow) (targetNodeId c))
             (connections cyclicFlow) = true
  /\ validateFlowStructure (nodes cyclicFlow) (connections cyclicFlow)
     = Some {| isValid := false;
               errors := ["Flow contains circular dependencies"] |}.
Proof.
  split; [run|]. split; [run|]. split.
  - apply (bool_decide_unpack _). run.
  - split; run.
Qed.

(** C9, amended. validateFlowStructure always returns, and its list holds
    every violation at once: a missing start node, more than one start node,
    a missing end node, duplicate node ids, each connection source and each
    connection target that is not a node, and, beyond the invariants of the
    data model, a cycle among the connections ("Flow contains circular
    dependencies"). The list is empty, and isValid true, exactly for a flow
    with one start node, at least one end node, distinct node ids, connections
    between existing nodes only, and no cycle. *)
Theorem validateFlowStructure_reports_all (nodes : list FlowNode)
    (connections : list FlowConnection) :
  exists r,
    validateFlowStructure nodes connections = Some r
    /\ (isValid r = true <-> errors r = [])
    /\ (countType "start" nodes = 0 ->
        In "Flow must have at least one start node" (errors r))
    /\ (1 < countType "start" nodes ->
        In "Flow can only have one start node" (errors r))
    /\ (countType "end" nodes = 0 ->
        In "Flow must have at least one end node" (errors r))
    /\ (~ NoDup (map node_id nodes) -> In "Node IDs must be unique" (errors r))
    /\ (forall c, In c connections -> ~ In (sourceNodeId c) (map node_id nodes) ->
        In ("Connection source node " ++ sourceNodeId c ++ " does not exist")
           (errors r))
    /\ (forall c, In c connections -> ~ In (targetNodeId c) (map node_id nodes) ->
        In ("Connection target node " ++ targetNodeId c ++ " does not exist")
           (errors r))
    /\ (hasCycle connections ->
        In "Flow contains circular dependencies" (errors r))
    /\ (errors r = [] <->
        countType "start" nodes = 1
        /\ 1 <= countType "end" nodes
        /\ NoDup (map node_id nodes)
        /\ (forall c, In c connections ->
              In (sourceNodeId c) (map node_id nodes)
              /\ In (targetNodeId c) (map node_id nodes))
        /\ ~ hasCycle connections).
Proof.
  destruct (hasCircularDependency_decides nodes connections) as (cyclic & Hc & Hcyc).
  unfold validateFlowStructure. rewrite Hc.
  eexists. split; [reflexivity|]. cbn [isValid errors].
  split; [rewrite Nat.eqb_eq; apply length_zero_iff_nil|].
  pose proof (startErrors_cases nodes) as Hs.
  pose proof (endErrors_cases nodes) as He.
  pose proof (idErrors_cases nodes) as Hi.
  repeat split.
  - intros H0. destruct Hs as [[_ ->]|[[H _]|[H _]]]; [|lia|lia].
    apply in_or_app. left. left. reflexivity.
  - intros H1. destruct Hs as [[H _]|[[_ ->]|[H _]]]; [lia| |lia].
    apply in_or_app. left. left. reflexivity.
  - intros H0. destruct He as [[_ ->]|[H _]]; [|lia].
    apply in_or_app. right. apply in_or_app. left. left. reflexivity.
  - intros Hd. destruct Hi as [[_ ->]|[H _]]; [|contradiction].
    do 2 (apply in_or_app; right). apply in_or_app. left. left. reflexivity.
  - intros c Hin Hsrc.
    do 3 (apply in_or_app; right). apply in_or_app. left.
    apply in_flat_map. exists c. split; [exact Hin|].
    apply connectionErrors_source. exact Hsrc.
  - intros c Hin Htgt.
    do 3 (apply in_or_app; right). apply in_or_app. left.
    apply in_flat_map. exists c. split; [exact Hin|].
    apply connectionErrors_target. exact Htgt.
  - intros Hcycle. apply Hcyc in Hcycle. subst cyclic.
    do 4 (apply in_or_app; right). left. reflexivity.
  - apply app_nil in H. destruct H as [H1 _].
    destruct Hs as [[_ Hs]|[[_ Hs]|[Hs _]]]; [congruence|congruence|exact Hs].
  - apply app_nil in H. destruct H as [_ H]. apply app_nil in H. destruct H as [H2 _].
    destruct He as [[_ He]|[He _]]; [congruence|exact He].
  - apply app_nil in H. destruct H as [_ H]. apply app_nil in H. destruct H as [_ H].
    apply app_nil in H. destruct H as [H3 _].
    destruct Hi as [[_ Hi]|[Hi _]]; [congruence|exact Hi].
  - do 3 (apply app_nil in H; destruct H as [_ H]).
    apply app_nil in H. destruct H as [H4 _].
    apply (proj1 (connectionErrors_nil nodes c)).
    apply (proj1 (flat_map_nil _ _) H4). assumption.
  - do 3 (apply app_nil in H; destruct H as [_ H]).
    apply app_nil in H. destruct H as [H4 _].
    apply (proj1 (connectionErrors_nil nodes c)).
    apply (proj1 (flat_map_nil _ _) H4). assumption.
  - do 4 (apply app_nil in H; destruct H as [_ H]).
    intros Hcycle. apply Hcyc in Hcycle. subst cyclic. discriminate.
  - intros (H1 & H2 & H3 & H4 & H5).
    destruct Hs as [[Hs _]|[[Hs _]|[_ ->]]]; [lia|lia|].
    destruct He as [[He _]|[_ ->]]; [lia|].
    destruct Hi as [[Hi _]|[_ ->]]; [contradiction|].
    assert (Hf : flat_map (connectionErrors nodes) connections = []).
    { apply flat_map_nil. intros c Hin. apply connectionErrors_nil. apply H4. exact Hin. }
    rewrite Hf. simpl.
    destruct cyclic; [|reflexivity].
    exfalso. apply H5. apply Hcyc. reflexivity.
Qed.

Lemma validateFlowStructure_reports_all_witness :
  exists r,
    validateFlowStructure (nodes emptyFlow) (connections emptyFlow) = Some r
    /\ In "Flow must have at least one start node" (errors r)
    /\ In "Flow must have at least one end node" (errors r).
Proof.
  destruct (validateFlowStructure_reports_all (nodes emptyFlow) (connections emptyFlow))
    as (r & Heq & _ & Hs & _ & He & _).
  exists r. split; [exact Heq|]. split; [apply Hs|apply He]; reflexivity.
Defined.

Lemma executeNode_never_throws_witness :
  exists r ctx' w',
    executeNode (node "q" "webhook" None) (context0 (VNum 7)) (VNum 7) world0
    = (Ok r, ctx', w')
    /\ success r = false
    /\ res_outputData r = VNull
    /\ error r = Some "Unsupported node type: webhook".
Proof.
  destruct (executeNode_never_throws (node "q" "webhook" None) (context0 (VNum 7))
              (VNum 7) world0)
    as (r & ctx' & w' & Heq & _ & _ & _ & Hu & _).
  exists r, ctx', w'. split; [exact Heq|]. apply Hu. reflexivity.
Defined.

(** * Further properties of the engine *)

(** ** The execution path *)

(** What an executor can change in the context: the variables (a set node)
    and outputData (an end node), nothing else. *)
Lemma dispatch_frame current input ctx :
  let ctx' := snd (dispatch current input ctx) in
  executionId ctx' = executionId ctx /\ flowId ctx' = flowId ctx
  /\ inputData ctx' = inputData ctx /\ currentNodeId ctx' = currentNodeId ctx
  /\ executionPath ctx' = executionPath ctx /\ startTime ctx' = startTime ctx.
Proof.
  unfold dispatch, executeConditionNode, executeActionNode, executeDelayNode,
    executeVariableNode.
  repeat match goal with
         | |- context [if ?b then _ else _] => destruct b
         end; simpl; repeat split; reflexivity.
Qed.

Lemma getNextNode_connected flow current data next :
  getNextNode flow current data = Some next ->
  connected (connections flow) (node_id current) (node_id next)
  /\ In next (nodes flow).
Proof.
  rewrite getNextNode_first. unfold outgoingConnections.
  destruct (List.filter _ (connections flow)) as [|c rest] eqn:Hf; [discriminate|].
  intros Hfind. unfold findNode in Hfind. apply List.find_some in Hfind.
  destruct Hfind as [Hin Hid]. apply String.eqb_eq in Hid.
  assert (Hc : In c (List.filter
                       (fun c => String.eqb (sourceNodeId c) (node_id current))
                       (connections flow))) by (rewrite Hf; left; reflexivity).
  apply filter_In in Hc. destruct Hc as [Hc Hs]. apply String.eqb_eq in Hs.
  split; [|exact Hin]. exists c. auto.
Qed.

Lemma isWalk_cons conns a b rest :
  connected conns a b -> isWalk conns (b :: rest) -> isWalk conns (a :: b :: rest).
Proof. intros H1 H2. split; assumption. Qed.

Lemma traverse_path fuel : forall flow current result ctx w,
  match traverse fuel flow current result ctx w with
  | Finished _ ctx' _ =>
      exists rest,
        executionPath ctx' = app (executionPath ctx) (node_id current :: rest)
        /\ isWalk (connections flow) (node_id current :: rest)
        /\ currentNodeId ctx' = List.last (node_id current :: rest) ""
        /\ S (length rest) <= fuel
  | Running next _ ctx' _ =>
      exists visited,
        executionPath ctx' = app (executionPath ctx) visited
        /\ isWalk (connections flow) (app visited [node_id next])
        /\ List.hd_error (app visited [node_id next]) = Some (node_id current)
        /\ length visited = fuel
  end.
Proof.
  induction fuel as [|fuel IH]; intros flow current result ctx w.
  - exists []. simpl. rewrite app_nil_r. auto.
  - destruct (traverse_step fuel flow current result ctx w)
      as (r & ctx2 & w3 & _ & _ & Hc & _ & ->).
    destruct (dispatch_frame current result (visit (node_id current) ctx))
      as (_ & _ & _ & Hcur & Hpath & _).
    rewrite <- Hc in Hcur, Hpath. simpl in Hcur, Hpath.
    assert (Hstop : exists rest,
               executionPath ctx2 = app (executionPath ctx) (node_id current :: rest)
               /\ isWalk (connections flow) (node_id current :: rest)
               /\ currentNodeId ctx2 = List.last (node_id current :: rest) ""
               /\ S (length rest) <= S fuel).
    { exists []. simpl. repeat split; auto. lia. }
    destruct (String.eqb (node_type current) "end"); [exact Hstop|].
    destruct (getNextNode flow current (res_outputData r)) as [next|] eqn:Hn;
      [|exact Hstop].
    apply getNextNode_connected in Hn. destruct Hn as [Hconn _].
    specialize (IH flow next (res_outputData r) ctx2 w3).
    destruct (traverse fuel flow next (res_outputData r) ctx2 w3)
      as [r' c' w'|n' r' c' w'].
    + destruct IH as (rest & Hp & Hw & Hl & Hlen).
      exists (node_id next :: rest). split.
      { rewrite Hp, Hpath, <- app_assoc. reflexivity. }
      split; [apply isWalk_cons; assumption|]. split; [exact Hl|simpl; lia].
    + destruct IH as (visited & Hp & Hw & Hh & Hlen).
      exists (node_id current :: visited). split.
      { rewrite Hp, Hpath, <- app_assoc. reflexivity. }
      split.
      { destruct visited as [|v visited]; simpl in *.
        - injection Hh as Hh. rewrite Hh. auto.
        - injection Hh as Hh. subst v. split; assumption. }
      split; [reflexivity|simpl; lia].
Qed.

(** X2. The execution path is a walk through the graph. A run that has
    returned has appended to executionPath the id of the start node followed
    by ids each reached from the one before it by a connection of the flow, at
    most one per iteration, and currentNodeId is the last of them; a run that
    threw (no start node) has left the context as it was. *)
Theorem executionPath_is_walk (fuel : nat) (flow : Flow) (ctx : ExecutionContext)
    (w : World) (r : Result jsany) (ctx' : ExecutionContext) (w' : World) :
  executeNodes fuel flow ctx w = Finished r ctx' w' ->
  match List.find (fun n => String.eqb (node_type n) "start") (nodes flow) with
  | Some startNode =>
      exists rest,
        executionPath ctx' = app (executionPath ctx) (node_id startNode :: rest)
        /\ isWalk (connections flow) (node_id startNode :: rest)
        /\ currentNodeId ctx' = List.last (node_id startNode :: rest) ""
        /\ S (length rest) <= fuel
  | None => ctx' = ctx /\ w' = w
  end.
Proof.
  unfold executeNodes. intros H.
  destruct (List.find _ (nodes flow)) as [startNode|].
  - pose proof (traverse_path fuel flow startNode (inputData ctx) ctx w) as Hp.
    rewrite H in Hp. exact Hp.
  - injection H as _ <- <-. auto.
Qed.

Lemma executionPath_is_walk_witness :
  exists r ctx' w' rest,
    executeNodes 10 simpleFlow (context0 (VObj [])) world1 = Finished r ctx' w'
    /\ executionPath ctx' = "s" :: rest
    /\ isWalk (connections simpleFlow) ("s" :: rest).
Proof.
  destruct (executeNodes 10 simpleFlow (context0 (VObj [])) world1)
    as [r ctx' w'|n r ctx' w'] eqn:H; [|vm_compute in H; discriminate].
  pose proof (executionPath_is_walk 10 simpleFlow (context0 (VObj [])) world1
                r ctx' w' H) as Hw.
  change (List.find (fun n => String.eqb (node_type n) "start") (nodes simpleFlow))
    with (Some (node "s" "start" None)) in Hw.
  cbv beta iota in Hw. destruct Hw as (rest & Hp & Hwalk & _).
  exists r, ctx', w', rest. split; [reflexivity|]. split; [exact Hp|exact Hwalk].
Defined.

(** ** Logs and isolation of a run *)

Lemma traverse_logs fuel : forall flow current result ctx w,
  match traverse fuel flow current result ctx w with
  | Finished _ _ w' | Running _ _ _ w' =>
      exists new,
        execution_logs w' = app (execution_logs w) new
        /\ Forall (fun l => log_execution_id l = executionId ctx) new
  end.
Proof.
  induction fuel as [|fuel IH]; intros flow current result ctx w.
  - exists []. simpl. rewrite app_nil_r. auto.
  - destruct (traverse_step fuel flow current result ctx w)
      as (r & ctx2 & w3 & _ & _ & Hc & Hw & ->).
    assert (Hid : executionId ctx2 = executionId ctx).
    { subst ctx2. rewrite dispatch_executionId. reflexivity. }
    assert (Hstop : exists new,
               execution_logs w3 = app (execution_logs w) new
               /\ Forall (fun l => log_execution_id l = executionId ctx) new).
    { subst w3. eexists. split.
      - simpl. rewrite <- app_assoc. reflexivity.
      - repeat constructor; simpl; congruence. }
    destruct (String.eqb (node_type current) "end"); [exact Hstop|].
    destruct (getNextNode flow current (res_outputData r)) as [next|]; [|exact Hstop].
    specialize (IH flow next (res_outputData r) ctx2 w3).
    destruct Hstop as (new1 & Hl1 & Hf1).
    destruct (traverse fuel flow next (res_outputData r) ctx2 w3)
      as [r' c' w'|n' r' c' w']; destruct IH as (new2 & Hl2 & Hf2);
      exists (app new1 new2); (split;
        [rewrite Hl2, Hl1, <- app_assoc; reflexivity
        |apply Forall_app; split; [exact Hf1|rewrite <- Hid; exact Hf2]]).
Qed.

Lemma executeNodes_logs fuel flow ctx w :
  match executeNodes fuel flow ctx w with
  | Finished _ _ w' | Running _ _ _ w' =>
      exists new,
        execution_logs w' = app (execution_logs w) new
        /\ Forall (fun l => log_execution_id l = executionId ctx) new
  end.
Proof.
  unfold executeNodes. destruct (List.find _ (nodes flow)); [apply traverse_logs|].
  exists []. rewrite app_nil_r. auto.
Qed.

Lemma executeNodes_store fuel flow ctx w :
  match executeNodes fuel flow ctx w with
  | Finished _ ctx' w' | Running _ _ ctx' w' =>
      executionId ctx' = executionId ctx /\ sameStore w w'
  end.
Proof.
  unfold executeNodes. destruct (List.find _ (nodes flow)); [apply traverse_store|].
  unfold sameStore. auto.
Qed.

(** X3. The log is append-only and a run writes only under its own id:
    whatever the outcome of executeFlowAsync, the log afterwards is the log
    before followed by lines that all carry the run's execution id. *)
Theorem run_appends_its_own_log_lines (fuel : nat) (id : string) (flow : Flow)
    (input : jsany) (w : World) :
  exists new,
    execution_logs (outcomeWorld (executeFlowAsync fuel id flow input w))
    = app (execution_logs w) new
    /\ Forall (fun l => log_execution_id l = id) new.
Proof.
  unfold executeFlowAsync, asyncBegin. simpl.
  destruct (variables flow) as [vs|fields].
  - match goal with
    | |- context [executeNodes fuel flow ?c ?w0] =>
        pose proof (executeNodes_logs fuel flow c w0) as Hl;
        pose proof (executeNodes_store fuel flow c w0) as Hs;
        destruct (executeNodes fuel flow c w0) as [r ctx' w'|n r ctx' w']
    end; destruct Hl as (new & Hl & Hf); destruct Hs as (Hid & _);
      simpl in Hl, Hf, Hid.
    + destruct r as [result|e]; eexists; (split;
        [unfold asyncSettle; simpl; rewrite Hl, <- !app_assoc; reflexivity|]);
        (constructor; [reflexivity|]);
        (apply Forall_app; split; [exact Hf|]);
        (constructor; [exact Hid|constructor]).
    + simpl. eexists. split.
      * rewrite Hl, <- app_assoc. reflexivity.
      * constructor; [reflexivity|exact Hf].
  - exists []. simpl. rewrite app_nil_r. auto.
Qed.

(** X4. A run touches no record but its own: whatever the outcome of
    executeFlowAsync, the flows are unchanged, no execution record is created
    or deleted, every record under another id is as before, the registry
    differs at most in the run's own id, and once the run has settled its id
    is no longer registered. *)
Theorem run_touches_only_its_own_record (fuel : nat) (id : string) (flow : Flow)
    (input : jsany) (w : World) :
  let w' := outcomeWorld (executeFlowAsync fuel id flow input w) in
  flows w' = flows w
  /\ dom (executions w') = dom (executions w)
  /\ (forall j, j <> id -> executions w' !! j = executions w !! j)
  /\ (forall j, j <> id -> (j ∈ activeExecutions w' <-> j ∈ activeExecutions w))
  /\ (forall ws, executeFlowAsync fuel id flow input w = Settled ws ->
        id ∉ activeExecutions ws).
Proof.
  unfold executeFlowAsync, asyncBegin. simpl.
  destruct (variables flow) as [vs|fields].
  - match goal with
    | |- context [executeNodes fuel flow ?c ?w0] =>
        pose proof (executeNodes_store fuel flow c w0) as Hs;
        destruct (executeNodes fuel flow c w0) as [r ctx' w'|n r ctx' w']
    end; destruct Hs as (Hid & He & Ha & Hf); simpl in Hid, He, Ha, Hf.
    + assert (Hex : executions (asyncSettle r ctx' w')
                    = alter (match r with
                             | Ok result =>
                                 completeRow result (clock w' (reads w') - startTime ctx')%Z
                             | Throw e =>
                                 failRow (error_message e)
                                   (clock w' (reads w') - startTime ctx')%Z
                             end) id (alter (with_status "running") id (executions w))).
      { rewrite asyncSettle_executions, Hid, He. destruct r; reflexivity. }
      assert (Hac : activeExecutions (asyncSettle r ctx' w')
                    = ({[id]} ∪ activeExecutions w) ∖ {[id]}).
      { unfold asyncSettle. rewrite Hid. destruct r; simpl; rewrite Ha; reflexivity. }
      assert (Hfl : flows (asyncSettle r ctx' w') = flows w).
      { unfold asyncSettle. destruct r; simpl; exact Hf. }
      cbn [outcomeWorld].
      split; [exact Hfl|]. split; [rewrite Hex, !dom_alter_L; reflexivity|].
      split; [intros j Hj; rewrite Hex, !lookup_alter_ne by congruence; reflexivity|].
      split; [intros j Hj; rewrite Hac; set_solver|].
      intros ws Heq. injection Heq as <-. rewrite Hac. set_solver.
    + simpl. split; [exact Hf|]. split; [rewrite He, dom_alter_L; reflexivity|].
      split; [intros j Hj; rewrite He, lookup_alter_ne by congruence; reflexivity|].
      split; [intros j Hj; rewrite Ha; set_solver|]. discriminate.
  - simpl. split; [reflexivity|]. split; [reflexivity|]. split; [reflexivity|].
    split; [reflexivity|]. discriminate.
Qed.

Lemma traverse_startTime fuel : forall flow current result ctx w,
  match traverse fuel flow current result ctx w with
  | Finished _ ctx' _ | Running _ _ ctx' _ => startTime ctx' = startTime ctx
  end.
Proof.
  induction fuel as [|fuel IH]; intros flow current result ctx w; [reflexivity|].
  destruct (traverse_step fuel flow current result ctx w)
    as (r & ctx2 & w3 & _ & _ & Hc & _ & ->).
  destruct (dispatch_frame current result (visit (node_id current) ctx))
    as (_ & _ & _ & _ & _ & Hst).
  rewrite <- Hc in Hst. simpl in Hst.
  destruct (String.eqb (node_type current) "end"); [exact Hst|].
  destruct (getNextNode flow current (res_outputData r)) as [next|]; [|exact Hst].
  specialize (IH flow next (res_outputData r) ctx2 w3).
  destruct (traverse fuel flow next (res_outputData r) ctx2 w3); congruence.
Qed.

Lemma executeFlowAsync_nostart_aux fuel flow ctx w :
  match executeNodes fuel flow ctx w with
  | Finished r ctx' _ =>
      startTime ctx' = startTime ctx
      /\ (List.find (fun n => String.eqb (node_type n) "start") (nodes flow) = None ->
          r = Throw (Error "No start node found in flow"))
  | Running _ _ _ _ => True
  end.
Proof.
  unfold executeNodes.
  destruct (List.find _ (nodes flow)) as [s|]; [|auto].
  pose proof (traverse_startTime fuel flow s (inputData ctx) ctx w) as H.
  destruct (traverse fuel flow s (inputData ctx) ctx w); [|exact I].
  split; [exact H|discriminate].
Qed.

Lemma traverse_clock fuel : forall flow current result ctx w,
  match traverse fuel flow current result ctx w with
  | Finished _ _ w' | Running _ _ _ w' => clock w' = clock w /\ reads w <= reads w'
  end.
Proof.
  induction fuel as [|fuel IH]; intros flow current result ctx w; [simpl; auto|].
  destruct (traverse_step fuel flow current result ctx w)
    as (r & ctx2 & w3 & _ & _ & _ & Hw & ->).
  assert (Hstop : clock w3 = clock w /\ reads w <= reads w3).
  { subst w3. simpl. split; [reflexivity|lia]. }
  destruct (String.eqb (node_type current) "end"); [exact Hstop|].
  destruct (getNextNode flow current (res_outputData r)) as [next|]; [|exact Hstop].
  specialize (IH flow next (res_outputData r) ctx2 w3).
  destruct Hstop as [Hc Hr].
  destruct (traverse fuel flow next (res_outputData r) ctx2 w3);
    destruct IH as [Hc' Hr']; (split; [congruence|lia]).
Qed.

Lemma executeNodes_clock fuel flow ctx w :
  match executeNodes fuel flow ctx w with
  | Finished r _ w' =>
      clock w' = clock w /\ reads w <= reads w'
      /\ (List.find (fun n => String.eqb (node_type n) "start") (nodes flow) = None ->
          reads w' = reads w)
  | Running _ _ _ w' => clock w' = clock w /\ reads w <= reads w'
  end.
Proof.
  unfold executeNodes.
  destruct (List.find _ (nodes flow)) as [s|]; [|auto].
  pose proof (traverse_clock fuel flow s (inputData ctx) ctx w) as H.
  destruct (traverse fuel flow s (inputData ctx) ctx w); [|exact H].
  destruct H as [Hc Hr]. split; [exact Hc|]. split; [exact Hr|discriminate].
Qed.

(** X5. What a settled run leaves in its record. The record keeps its flow id
    and input data and its status is completed or failed. Its duration is the
    last clock reading that the run made minus the first one it made: when
    the run has taken the readings number [reads w] to [n] of the clock, the
    duration is [clock n - clock (reads w)]. A flow without a start node
    settles as failed with "No start node found in flow" after exactly two
    readings, and its output is left as it was. *)
Theorem settled_run_record (fuel : nat) (id : string) (flow : Flow)
    (input : jsany) (w ws : World) (row : ExecutionRow) :
  executions w !! id = Some row ->
  executeFlowAsync fuel id flow input w = Settled ws ->
  exists row' n,
    executions ws !! id = Some row'
    /\ row_flow_id row' = row_flow_id row
    /\ input_data row' = input_data row
    /\ clock ws = clock w /\ reads ws = S n /\ reads w < n
    /\ duration row' = Some (clock w n - clock w (reads w))%Z
    /\ (row_status row' = "completed" \/ row_status row' = "failed")
    /\ (List.find (fun n => String.eqb (node_type n) "start") (nodes flow) = None ->
        row_status row' = "failed"
        /\ error_message_col row' = Some "No start node found in flow"
        /\ output_data row' = output_data row
        /\ n = S (reads w)).
Proof.
  intros Hrow. unfold executeFlowAsync, asyncBegin. simpl.
  destruct (variables flow) as [vs|fields]; [|discriminate].
  match goal with
  | |- context [executeNodes fuel flow ?c ?w0] =>
      pose proof (executeNodes_store fuel flow c w0) as Hs;
      pose proof (executeFlowAsync_nostart_aux fuel flow c w0) as Hns;
      pose proof (executeNodes_clock fuel flow c w0) as Hck;
      destruct (executeNodes fuel flow c w0) as [r ctx' w'|n r ctx' w']
  end; [|discriminate].
  destruct Hs as (Hid & He & _ & _). simpl in Hid, He.
  destruct Hck as (Hc & Hr & Hr0). simpl in Hc, Hr, Hr0.
  intros Heq. injection Heq as <-.
  assert (Hst : startTime ctx' = clock w (reads w)).
  { destruct Hns as [Hst _]. exact Hst. }
  assert (Hcl : clock (asyncSettle r ctx' w') = clock w
                /\ reads (asyncSettle r ctx' w') = S (reads w')).
  { unfold asyncSettle. destruct r; simpl; auto. }
  destruct Hcl as [Hcl Hrd].
  rewrite asyncSettle_executions, Hid, He, Hc, Hst.
  destruct r as [result|e]; rewrite lookup_alter_eq, lookup_alter_eq, Hrow; simpl;
    eexists; exists (reads w'); (split; [reflexivity|]); simpl;
    (split; [reflexivity|]); (split; [reflexivity|]);
    (split; [exact Hcl|]); (split; [exact Hrd|]); (split; [lia|]);
    (split; [reflexivity|]).
  - split; [left; reflexivity|]. intros Hnone.
    destruct Hns as [_ Hns]. specialize (Hns Hnone). discriminate.
  - split; [right; reflexivity|]. intros Hnone.
    destruct Hns as [_ Hns]. specialize (Hns Hnone). injection Hns as ->.
    rewrite (Hr0 Hnone). repeat split; reflexivity.
Qed.

Lemma settled_run_record_witness :
  exists ws row',
    executeFlowAsync 10 "x1" simpleFlow (VObj []) world1 = Settled ws
    /\ executions ws !! "x1" = Some row'
    /\ reads ws = 8
    /\ duration row' = Some 7%Z.
Proof.
  destruct (executeFlowAsync 10 "x1" simpleFlow (VObj []) world1)
    as [ws|e ws|c ws] eqn:H; [|vm_compute in H; discriminate..].
  destruct (settled_run_record 10 "x1" simpleFlow (VObj []) world1 ws pendingRow
              eq_refl H) as (row' & n & Hrow & _ & _ & _ & Hrd & _ & Hd & _).
  assert (Hws : reads ws = 8).
  { vm_compute in H. injection H as <-. reflexivity. }
  exists ws, row'. split; [reflexivity|]. split; [exact Hrow|].
  split; [exact Hws|].
  rewrite Hws in Hrd. injection Hrd as <-. exact Hd.
Defined.

(** ** Run-local variables *)

Lemma executeNode_variable node ctx input w :
  node_type node = "variable" ->
  exists r w',
    executeNode node ctx input w
    = (Ok r, snd (executeVariableNode node input ctx), w')
    /\ res_outputData r = outputOf (fst (executeVariableNode node input ctx))
    /\ success r = match fst (executeVariableNode node input ctx) with
                   | Ok _ => true
                   | Throw _ => false
                   end.
Proof.
  intros Hty.
  destruct (executeNode_unfold node ctx input w) as (r & Heq & _ & _ & _ & Hr).
  rewrite (dispatch_variable _ _ _ Hty) in Heq, Hr.
  exists r. eexists. split; [exact Heq|].
  destruct (fst (executeVariableNode node input ctx)); simpl; tauto.
Qed.

(** X6. Set then get. After a variable node has set a variable, a get node
    for the same name outputs the value that was set, and a get node for any
    other name outputs what it would have output before the set; the get node
    itself changes nothing in the context. *)
Theorem variable_set_then_get (setNode getNode : FlowNode) (ctx : ExecutionContext)
    (input input' : jsany) (w : World) :
  node_type setNode = "variable" -> operation (config_of setNode) = Some "set" ->
  node_type getNode = "variable" -> operation (config_of getNode) = Some "get" ->
  exists r1 ctx1 w1 r2 w2,
    executeNode setNode ctx input w = (Ok r1, ctx1, w1)
    /\ executeNode getNode ctx1 input' w1 = (Ok r2, ctx1, w2)
    /\ success r1 = true /\ res_outputData r1 = input
    /\ success r2 = true
    /\ (variableName (config_of getNode) = variableName (config_of setNode) ->
        res_outputData r2 = value (config_of setNode))
    /\ (variableName (config_of getNode) <> variableName (config_of setNode) ->
        res_outputData r2
        = map_get (ctx_variables ctx) (variableName (config_of getNode))).
Proof.
  intros Hts Hs Htg Hg.
  destruct (executeNode_variable setNode ctx input w Hts) as (r1 & w1 & H1 & Ho1 & Hs1).
  destruct (executeNode_variable getNode (snd (executeVariableNode setNode input ctx))
              input' w1 Htg) as (r2 & w2 & H2 & Ho2 & Hs2).
  unfold executeVariableNode in *. rewrite Hs in *. rewrite Hg in *. simpl in *.
  exists r1. eexists. exists w1, r2, w2.
  split; [exact H1|]. split; [exact H2|]. split; [exact Hs1|]. split; [exact Ho1|].
  split; [exact Hs2|]. rewrite Ho2. unfold map_get. split.
  - intros ->. rewrite lookup_insert_eq. reflexivity.
  - intros Hne. rewrite lookup_insert_ne by congruence. reflexivity.
Qed.

Lemma variable_set_then_get_witness :
  exists r1 ctx1 w1 r2 w2,
    executeNode (variableNode "set") (context0 VNull) VNull world0 = (Ok r1, ctx1, w1)
    /\ executeNode (variableNode "get") ctx1 VNull w1 = (Ok r2, ctx1, w2)
    /\ res_outputData r2 = VNum 1.
Proof.
  destruct (variable_set_then_get (variableNode "set") (variableNode "get")
              (context0 VNull) VNull VNull world0 eq_refl eq_refl eq_refl eq_refl)
    as (r1 & ctx1 & w1 & r2 & w2 & H1 & H2 & _ & _ & _ & Hsame & _).
  exists r1, ctx1, w1, r2, w2. split; [exact H1|]. split; [exact H2|].
  apply Hsame. reflexivity.
Defined.

Lemma find_app_first {A} (p : A -> bool) (l1 l2 : list A) :
  List.find p (app l1 l2)
  = match List.find p l1 with
    | Some x => Some x
    | None => List.find p l2
    end.
Proof.
  induction l1 as [|a l1 IH]; simpl; [reflexivity|].
  destruct (p a); [reflexivity|exact IH].
Qed.

Lemma seed_lookup (vs : list FlowVariable) : forall (m : gmap (option string) jsany) name,
  fold_left (fun m v => <[Some (var_name v) := defaultValue v]> m) vs m !! Some name
  = match List.find (fun v => String.eqb (var_name v) name) (rev vs) with
    | Some v => Some (defaultValue v)
    | None => m !! Some name
    end.
Proof.
  induction vs as [|v vs IH]; intros m name; simpl; [reflexivity|].
  rewrite IH, find_app_first.
  destruct (List.find _ (rev vs)); [reflexivity|]. simpl.
  destruct (String.eqb (var_name v) name) eqn:Hv.
  - apply String.eqb_eq in Hv. subst name. rewrite lookup_insert_eq. reflexivity.
  - apply String.eqb_neq in Hv. rewrite lookup_insert_ne by congruence. reflexivity.
Qed.

Lemma seed_lookup_None (vs : list FlowVariable) : forall (m : gmap (option string) jsany),
  fold_left (fun m v => <[Some (var_name v) := defaultValue v]> m) vs m !! None
  = m !! None.
Proof.
  induction vs as [|v vs IH]; intros m; simpl; [reflexivity|].
  rewrite IH, lookup_insert_ne by discriminate. reflexivity.
Qed.

(** X7. Seeding of the variables. When flow.variables is an array, the run
    starts with exactly the declared variables: each name holds the default
    value of its last declaration, an undeclared name reads as undefined, and
    the context starts with the given input, an empty path and the start
    time read from the clock. *)
Theorem run_starts_with_declared_variables (id : string) (flow : Flow)
    (input : jsany) (w : World) (vs : list FlowVariable) :
  variables flow = VarsArray vs ->
  exists ctx w',
    asyncBegin id flow input w = (Ok ctx, w')
    /\ (forall name,
          map_get (ctx_variables ctx) (Some name)
          = match List.find (fun v => String.eqb (var_name v) name) (rev vs) with
            | Some v => defaultValue v
            | None => VUndefined
            end)
    /\ map_get (ctx_variables ctx) None = VUndefined
    /\ inputData ctx = input /\ executionPath ctx = []
    /\ startTime ctx = clock w (reads w).
Proof.
  intros Hvs. unfold asyncBegin. simpl. rewrite Hvs.
  do 2 eexists. split; [reflexivity|]. simpl. split; [|split; [|auto]].
  - intros name. unfold map_get, seedVariables. rewrite seed_lookup.
    destruct (List.find _ (rev vs)); [reflexivity|]. rewrite lookup_empty. reflexivity.
  - unfold map_get, seedVariables. rewrite seed_lookup_None, lookup_empty. reflexivity.
Qed.

Lemma run_starts_with_declared_variables_witness :
  exists ctx w',
    asyncBegin "x1"
      {| flow_id := "f1"; flow_name := "demo"; flow_status := "published";
         nodes := []; connections := [];
         variables := VarsArray [ {| var_name := "n"; defaultValue := VNum 1 |};
                                  {| var_name := "n"; defaultValue := VNum 2 |} ] |}
      VNull world1 = (Ok ctx, w')
    /\ map_get (ctx_variables ctx) (Some "n") = VNum 2
    /\ map_get (ctx_variables ctx) (Some "m") = VUndefined.
Proof.
  destruct (run_starts_with_declared_variables "x1"
              {| flow_id := "f1"; flow_name := "demo"; flow_status := "published";
                 nodes := []; connections := [];
                 variables := VarsArray [ {| var_name := "n"; defaultValue := VNum 1 |};
                                          {| var_name := "n"; defaultValue := VNum 2 |} ] |}
              VNull world1 _ eq_refl) as (ctx & w' & Heq & Hv & _).
  exists ctx, w'. split; [exact Heq|]. split; [apply (Hv "n")|apply (Hv "m")].
Defined.

Lemma dispatch_variables n input ctx k :
  ~ setsVariable n k ->
  ctx_variables (snd (dispatch n input ctx)) !! k = ctx_variables ctx !! k.
Proof.
  intros Hns. unfold dispatch, executeConditionNode, executeActionNode,
    executeDelayNode, executeVariableNode.
  destruct (String.eqb (node_type n) "start"); [reflexivity|].
  destruct (String.eqb (node_type n) "end"); [reflexivity|].
  destruct (String.eqb (node_type n) "condition");
    [destruct (truthy _); reflexivity|].
  destruct (String.eqb (node_type n) "action");
    [repeat match goal with
            | |- context [if ?b then _ else _] => destruct b
            end; reflexivity|].
  destruct (String.eqb (node_type n) "delay"); [reflexivity|].
  destruct (String.eqb (node_type n) "variable") eqn:Hty; [|reflexivity].
  destruct (is_case (operation (config_of n)) "set") eqn:Hset.
  - simpl. apply String.eqb_eq in Hty. apply is_case_true in Hset.
    apply lookup_insert_ne. intros Hk. apply Hns. repeat split; assumption.
  - destruct (is_case (operation (config_of n)) "get"); reflexivity.
Qed.

Lemma traverse_variables fuel : forall flow current result ctx w k,
  (forall n, In n (nodes flow) -> ~ setsVariable n k) ->
  In current (nodes flow) ->
  match traverse fuel flow current result ctx w with
  | Finished _ ctx' _ | Running _ _ ctx' _ =>
      ctx_variables ctx' !! k = ctx_variables ctx !! k
      /\ inputData ctx' = inputData ctx
  end.
Proof.
  induction fuel as [|fuel IH]; intros flow current result ctx w k Hall Hin;
    [simpl; auto|].
  destruct (traverse_step fuel flow current result ctx w)
    as (r & ctx2 & w3 & _ & _ & Hc & _ & ->).
  destruct (dispatch_frame current result (visit (node_id current) ctx))
    as (_ & _ & Hinp & _).
  pose proof (dispatch_variables current result (visit (node_id current) ctx) k
                (Hall current Hin)) as Hv.
  rewrite <- Hc in Hinp, Hv. simpl in Hinp, Hv.
  destruct (String.eqb (node_type current) "end"); [auto|].
  destruct (getNextNode flow current (res_outputData r)) as [next|] eqn:Hn; [|auto].
  apply getNextNode_connected in Hn. destruct Hn as [_ Hnext].
  specialize (IH flow next (res_outputData r) ctx2 w3 k Hall Hnext).
  destruct (traverse fuel flow next (res_outputData r) ctx2 w3);
    destruct IH as [IH1 IH2]; split; congruence.
Qed.

(** X8. Variables change only where a node sets them. If no variable node of
    the flow sets the name k, then k holds after the loop (finished or still
    running) what it held before; the run's inputData is never changed. *)
Theorem variables_change_only_where_set (fuel : nat) (flow : Flow)
    (ctx : ExecutionContext) (w : World) (k : option string) :
  (forall n, In n (nodes flow) -> ~ setsVariable n k) ->
  match executeNodes fuel flow ctx w with
  | Finished _ ctx' _ | Running _ _ ctx' _ =>
      ctx_variables ctx' !! k = ctx_variables ctx !! k
      /\ inputData ctx' = inputData ctx
  end.
Proof.
  intros Hall. unfold executeNodes.
  destruct (List.find _ (nodes flow)) as [s|] eqn:Hs; [|auto].
  apply traverse_variables; [exact Hall|].
  apply List.find_some in Hs. tauto.
Qed.

Lemma variables_change_only_where_set_witness :
  match executeNodes 10 simpleFlow contextWithN world1 with
  | Finished _ ctx' _ | Running _ _ ctx' _ =>
      ctx_variables ctx' !! Some "n" = Some (VNum 1)
  end.
Proof.
  pose proof (variables_change_only_where_set 10 simpleFlow contextWithN world1
                (Some "n")) as H.
  destruct (executeNodes 10 simpleFlow contextWithN world1);
    (destruct H as [H _];
     [intros n Hin (Hty & _);
      repeat (destruct Hin as [<-|Hin]; [discriminate Hty|]); destruct Hin
     |rewrite H; reflexivity]).
Defined.

(** ** Flows that hand the data on *)

Lemma dispatch_keepsData n input ctx :
  keepsData n = true ->
  fst (dispatch n input ctx)
  = Ok (if String.eqb (node_type n) "start" then inputData ctx else input)
  /\ (outputData (snd (dispatch n input ctx)) = outputData ctx
      \/ outputData (snd (dispatch n input ctx)) = input).
Proof.
  unfold keepsData, dispatch, executeConditionNode, executeActionNode,
    executeDelayNode, executeVariableNode, executeHttpRequest, executeDataTransform.
  destruct (String.eqb_spec (node_type n) "start") as [Hs|Hs]; [auto|].
  destruct (String.eqb_spec (node_type n) "end") as [He|He]; [simpl; auto|].
  destruct (String.eqb_spec (node_type n) "condition") as [Hc|Hc].
  { rewrite Hc. simpl. destruct (truthy _); simpl; [auto|discriminate]. }
  destruct (String.eqb_spec (node_type n) "action") as [Ha|Ha].
  { rewrite Ha. simpl.
    destruct (is_case _ "http_request"); [auto|].
    destruct (is_case _ "data_transform"); [auto|discriminate]. }
  destruct (String.eqb_spec (node_type n) "delay") as [Hd|Hd]; [auto|].
  destruct (String.eqb_spec (node_type n) "variable") as [Hv|Hv]; [|discriminate].
  simpl. destruct (is_case (operation (config_of n)) "set"); [auto|discriminate].
Qed.

Lemma traverse_keepsData fuel : forall flow current ctx w,
  (forall n, In n (nodes flow) -> keepsData n = true) ->
  In current (nodes flow) ->
  match traverse fuel flow current (inputData ctx) ctx w with
  | Finished r ctx' _ =>
      r = Ok (inputData ctx) /\ inputData ctx' = inputData ctx
      /\ (outputData ctx' = outputData ctx \/ outputData ctx' = inputData ctx)
  | Running _ result' ctx' _ =>
      result' = inputData ctx /\ inputData ctx' = inputData ctx
      /\ (outputData ctx' = outputData ctx \/ outputData ctx' = inputData ctx)
  end.
Proof.
  induction fuel as [|fuel IH]; intros flow current ctx w Hall Hin; [simpl; auto|].
  destruct (traverse_step fuel flow current (inputData ctx) ctx w)
    as (r & ctx2 & w3 & _ & Ho & Hc & _ & ->).
  destruct (dispatch_frame current (inputData ctx) (visit (node_id current) ctx))
    as (_ & _ & Hinp & _).
  destruct (dispatch_keepsData current (inputData ctx) (visit (node_id current) ctx)
              (Hall current Hin)) as [Hk Hout].
  rewrite <- Hc in Hinp, Hout. simpl in Hinp, Hout.
  assert (Hres : res_outputData r = inputData ctx).
  { rewrite Ho, Hk. simpl. destruct (String.eqb (node_type current) "start"); reflexivity. }
  rewrite Hres.
  destruct (String.eqb (node_type current) "end"); [auto|].
  destruct (getNextNode flow current (inputData ctx)) as [next|] eqn:Hn; [|auto].
  apply getNextNode_connected in Hn. destruct Hn as [_ Hnext].
  specialize (IH flow next ctx2 w3 Hall Hnext). rewrite Hinp in IH.
  destruct (traverse fuel flow next (inputData ctx) ctx2 w3);
    destruct IH as (IH1 & IH2 & IH3); (split; [exact IH1|]);
    (split; [congruence|]); destruct IH3 as [IH3|IH3]; destruct Hout as [Hout|Hout];
    (left; congruence) || (right; congruence).
Qed.

(** X9. A flow of pass-through nodes returns its input. When every node of
    the flow is a start, end or delay node, a condition node with a condition,
    an action node of type http_request or data_transform, or a variable node
    with operation set, a run that returns returns the run's input data, and
    outputData is either untouched or that same input. *)
Theorem pass_through_flow_returns_input (fuel : nat) (flow : Flow)
    (ctx : ExecutionContext) (w : World) (startNode : FlowNode)
    (r : Result jsany) (ctx' : ExecutionContext) (w' : World) :
  (forall n, In n (nodes flow) -> keepsData n = true) ->
  List.find (fun n => String.eqb (node_type n) "start") (nodes flow) = Some startNode ->
  executeNodes fuel flow ctx w = Finished r ctx' w' ->
  r = Ok (inputData ctx)
  /\ (outputData ctx' = outputData ctx \/ outputData ctx' = inputData ctx).
Proof.
  intros Hall Hs. unfold executeNodes. rewrite Hs. intros Heq.
  pose proof (traverse_keepsData fuel flow startNode ctx w Hall) as H.
  rewrite Heq in H. apply List.find_some in Hs. destruct Hs as [Hin _].
  destruct (H Hin) as (Hr & _ & Ho). auto.
Qed.

Lemma pass_through_flow_returns_input_witness :
  exists ctx' w',
    executeNodes 10 simpleFlow (context0 (VNum 7)) world1 = Finished (Ok (VNum 7)) ctx' w'.
Proof.
  destruct (executeNodes 10 simpleFlow (context0 (VNum 7)) world1)
    as [r ctx' w'|n r ctx' w'] eqn:H; [|vm_compute in H; discriminate].
  destruct (pass_through_flow_returns_input 10 simpleFlow (context0 (VNum 7)) world1
              (node "s" "start" None) r ctx' w') as [Hr _].
  - intros n Hin. repeat (destruct Hin as [<-|Hin]; [reflexivity|]). destruct Hin.
  - reflexivity.
  - exact H.
  - exists ctx', w'. rewrite Hr. reflexivity.
Defined.

(** ** Cancelling and retrying *)

Lemma cancelExecution_executions id w :
  executions (snd (cancelExecution id w)) = executions w
  \/ executions (snd (cancelExecution id w))
     = alter (with_status "cancelled") id (executions w).
Proof.
  unfold cancelExecution, getExecutionById.
  destruct (executions w !! id) as [row|]; [|left; reflexivity].
  destruct (negb _ && negb _); [left|right]; reflexivity.
Qed.

Lemma asyncBegin_executions id flow input w :
  executions (snd (asyncBegin id flow input w)) = executions w
  \/ executions (snd (asyncBegin id flow input w))
     = alter (with_status "running") id (executions w).
Proof.
  unfold asyncBegin. simpl.
  destruct (variables flow); [right|left]; reflexivity.
Qed.

Lemma retryExecution_cases id uuid w :
  retryExecution id uuid w
  = (Throw match executions w !! id with
           | None => notFound "Execution not found"
           | Some row =>
               match flows w !! row_flow_id row with
               | None => notFound "Flow not found"
               | Some flow =>
                   if String.eqb (flow_status flow) "published"
                   then internal "Failed to start execution"
                   else badRequest "Only published flows can be executed"
               end
           end, w, None).
Proof.
  unfold retryExecution, getExecutionById.
  destruct (executions w !! id) as [row|]; [|reflexivity].
  rewrite executeFlow_cases. reflexivity.
Qed.

Lemma notCancellable_alter id id' f w w' :
  (id' = id ->
   forall row, row_status (f row) <> "pending" /\ row_status (f row) <> "running") ->
  notCancellable id w ->
  executions w' = alter f id' (executions w) ->
  notCancellable id w'.
Proof.
  intros Hf (row & Hrow & Hp & Hr) He. unfold notCancellable. rewrite He.
  destruct (decide (id' = id)) as [Heq|Hne].
  - subst id'. exists (f row). rewrite lookup_alter_eq, Hrow.
    split; [reflexivity|apply Hf; reflexivity].
  - exists row. rewrite lookup_alter_ne by exact Hne. auto.
Qed.

Lemma notCancellable_same id w w' :
  notCancellable id w -> executions w' = executions w -> notCancellable id w'.
Proof. intros (row & Hrow & H) He. exists row. rewrite He. auto. Qed.

Lemma otherStep_notCancellable id w w' :
  notCancellable id w -> otherStep id w w' -> notCancellable id w'.
Proof.
  intros Hn Hstep. destruct Hstep as [request uuid w|id' uuid w|id' w
                                     |id' flow input w Hne
                                     |fuel flow current result ctx w|r ctx w].
  - rewrite executeFlow_cases. exact Hn.
  - rewrite retryExecution_cases. exact Hn.
  - destruct (cancelExecution_executions id' w) as [He|He].
    + apply (notCancellable_same id w); assumption.
    + apply (notCancellable_alter id id' (with_status "cancelled") w); try assumption.
      intros _ row. split; discriminate.
  - destruct (asyncBegin_executions id' flow input w) as [He|He].
    + apply (notCancellable_same id w); assumption.
    + apply (notCancellable_alter id id' (with_status "running") w); try assumption.
      intros Heq. contradiction.
  - pose proof (traverse_store fuel flow current result ctx w) as Hs.
    destruct (traverse fuel flow current result ctx w);
      destruct Hs as (_ & He & _); apply (notCancellable_same id w); assumption.
  - pose proof (asyncSettle_executions r ctx w) as He.
    destruct r as [result|e];
      (eapply (notCancellable_alter id (executionId ctx)); [|exact Hn|exact He]);
      intros _ row; split; discriminate.
Qed.

(** X10. A terminal status keeps cancellation out. Once cancelExecution has
    succeeded for an execution, and likewise once a run under its id has
    settled, every later cancelExecution for that id is rejected with the
    bad-request error "Execution cannot be cancelled" and changes nothing,
    whatever happens in between: requests to executeFlow, retryExecution and
    cancelExecution, runs under other ids, further iterations of any loop, the
    settling of any run. The one step left out is the first phase of a run
    begun under that same id, which writes running over whatever status it
    finds. *)
Theorem cancel_after_terminal_is_rejected (id : string) (w0 w1 w' : World) :
  (exists r, cancelExecution id w0 = (Ok r, w1))
  \/ (exists r ctx,
        executionId ctx = id /\ is_Some (executions w0 !! id)
        /\ w1 = asyncSettle r ctx w0) ->
  rtc (otherStep id) w1 w' ->
  cancelExecution id w'
  = (Throw (badRequest "Execution cannot be cancelled"), w').
Proof.
  intros Hstart Hsteps.
  assert (Hn : notCancellable id w1).
  { destruct Hstart as [[r H]|(r & ctx & Hid & [row Hrow] & ->)].
    - unfold cancelExecution, getExecutionById in H.
      destruct (executions w0 !! id) as [row|] eqn:Hrow; [|discriminate].
      destruct (negb _ && negb _); [discriminate|].
      injection H as _ <-.
      exists (with_status "cancelled" row). simpl.
      rewrite lookup_alter_eq, Hrow. repeat split; discriminate.
    - unfold notCancellable. rewrite asyncSettle_executions, Hid.
      destruct r as [result|e]; rewrite lookup_alter_eq, Hrow;
        eexists; (split; [reflexivity|]); split; discriminate. }
  clear Hstart. induction Hsteps as [w|w wm w' Hstep _ IH].
  - destruct Hn as (row & Hrow & Hp & Hr).
    apply (cancelExecution_rejected id w row Hrow Hp Hr).
  - apply IH. apply (otherStep_notCancellable id w wm Hn Hstep).
Qed.

Lemma cancel_after_terminal_is_rejected_witness :
  exists r w1,
    cancelExecution "x1" world1 = (Ok r, w1)
    /\ cancelExecution "x1" (asyncSettle (Ok VNull) (context0 (VObj [])) w1)
       = (Throw (badRequest "Execution cannot be cancelled"),
          asyncSettle (Ok VNull) (context0 (VObj [])) w1).
Proof.
  destruct (cancelExecution "x1" world1) as [[r|e] w1] eqn:H;
    [|vm_compute in H; discriminate].
  exists r, w1. split; [reflexivity|].
  apply (cancel_after_terminal_is_rejected "x1" world1 w1).
  - left. exists r. exact H.
  - apply rtc_once. apply step_asyncSettle.
Defined.

(** X11. Neither executeFlow nor retryExecution ever starts an execution.
    The INSERT of executeFlow names id, flow_id, status, input_data and
    started_at and leaves out created_at, which the executions table declares
    NOT NULL without a default; so for a published flow it fails, and the
    request ends with the internal error "Failed to start execution". Every
    call of executeFlow throws and writes nothing. retryExecution fails with
    NotFound "Execution not found" for an unknown execution id and otherwise as
    executeFlow does on the stored flow id: NotFound "Flow not found", the
    bad-request error for a flow that is not published, the internal error for
    a published one; it writes nothing and launches no run. *)
Theorem retryExecution_outcomes (id uuid : string) (w : World) :
  (forall request, exists e, executeFlow request uuid w = (Throw e, w, None))
  /\ (forall request flow,
        flows w !! req_flowId request = Some flow ->
        flow_status flow = "published" ->
        executeFlow request uuid w
        = (Throw (internal "Failed to start execution"), w, None))
  /\ match executions w !! id with
     | None =>
         retryExecution id uuid w = (Throw (notFound "Execution not found"), w, None)
     | Some row =>
         match flows w !! row_flow_id row with
         | None =>
             retryExecution id uuid w = (Throw (notFound "Flow not found"), w, None)
         | Some flow =>
             retryExecution id uuid w
             = (Throw (if String.eqb (flow_status flow) "published"
                       then internal "Failed to start execution"
                       else badRequest "Only published flows can be executed"),
                w, None)
         end
     end.
Proof.
  split; [|split].
  - intros request. rewrite executeFlow_cases. eexists. reflexivity.
  - intros request flow Hflow Hpub. rewrite executeFlow_cases, Hflow, Hpub.
    reflexivity.
  - rewrite retryExecution_cases.
    destruct (executions w !! id) as [row|]; [|reflexivity].
    destruct (flows w !! row_flow_id row) as [flow|]; reflexivity.
Qed.

Lemma retryExecution_outcomes_witness :
  executeFlow {| req_flowId := "f1"; req_inputData := VObj [] |} "x1"
              (worldWithFlow simpleFlow)
  = (Throw (internal "Failed to start execution"), worldWithFlow simpleFlow, None).
Proof.
  apply (proj1 (proj2 (retryExecution_outcomes "x0" "x1" (worldWithFlow simpleFlow)))
           {| req_flowId := "f1"; req_inputData := VObj [] |} simpleFlow).
  - reflexivity.
  - reflexivity.
Defined.

(** ** The cycle check of validateFlowStructure *)

(** X1. hasCircularDependency always returns, and it answers true exactly
    when the connections contain a cycle, that is a non-empty chain of
    connections leading from a node id back to itself; the node list plays no
    part in the answer. *)
Theorem cycle_check_decides (nodes nodes' : list FlowNode)
    (connections : list FlowConnection) :
  exists cyclic,
    hasCircularDependency nodes connections = Some cyclic
    /\ (cyclic = true <-> hasCycle connections)
    /\ hasCircularDependency nodes' connections = Some cyclic.
Proof.
  destruct (hasCircularDependency_decides nodes connections) as (c & H & Hc).
  destruct (hasCircularDependency_decides nodes' connections) as (c' & H' & Hc').
  exists c. split; [exact H|]. split; [exact Hc|].
  rewrite H'. f_equal. destruct c, c'; try reflexivity.
  - exfalso. assert (true = true) as Ht by reflexivity.
    apply Hc in Ht. apply Hc' in Ht. discriminate.
  - exfalso. assert (true = true) as Ht by reflexivity.
    apply Hc' in Ht. apply Hc in Ht. discriminate.
Qed.

(** * Properties of FlowService *)

Lemma engineStore_lookup table flowId :
  engineStore table !! flowId
  = match table !! flowId with
    | Some row => Some (FlowService.toEngine (FlowService.mapRowToFlow flowId row))
    | None => None
    end.
Proof.
  unfold engineStore. rewrite map_lookup_imap.
  destruct (table !! flowId); reflexivity.
Qed.

(** X12. No flow read from the flows table can be executed. mapRowToFlow
    takes the status from a column that the table does not have, so every
    flow that getFlowById returns has status draft, published or not; on such
    a store executeFlow fails for every request, with NotFound for an unknown
    flow id and with "Only published flows can be executed" otherwise, and
    writes nothing. *)
Theorem stored_flows_are_never_executed (table : gmap string FlowService.Row)
    (request : ExecuteFlowRequest) (uuid : string) (w : World) :
  flows w = engineStore table ->
  (forall flowId flow, FlowService.getFlowById flowId table = Some flow ->
     FlowService.status flow = "draft")
  /\ match table !! req_flowId request with
     | None =>
         executeFlow request uuid w = (Throw (notFound "Flow not found"), w, None)
     | Some _ =>
         executeFlow request uuid w
         = (Throw (badRequest "Only published flows can be executed"), w, None)
     end.
Proof.
  intros Hw. split.
  - intros flowId flow. unfold FlowService.getFlowById.
    destruct (table !! flowId); [|discriminate]. intros [= <-]. reflexivity.
  - unfold executeFlow. rewrite Hw, engineStore_lookup.
    destruct (table !! req_flowId request); reflexivity.
Qed.

Lemma stored_flows_are_never_executed_witness :
  executeFlow {| req_flowId := "f1"; req_inputData := VObj [] |} "x1" worldOnTable
  = (Throw (badRequest "Only published flows can be executed"), worldOnTable, None).
Proof.
  apply (proj2 (stored_flows_are_never_executed tableWithPublished
                  {| req_flowId := "f1"; req_inputData := VObj [] |} "x1"
                  worldOnTable eq_refl)).
Defined.

(** ** Publishing *)

Lemma catchAll_throw {A} message (body : Result A * gmap string FlowService.Row) e t :
  FlowService.catchAll message body = (Throw e, t) ->
  e = internal message /\ exists e', body = (Throw e', t).
Proof.
  destruct body as [[a|e'] t']; simpl; intros H; [discriminate|].
  injection H as <- <-. eauto.
Qed.

Lemma catchAll_ok {A} message (body : Result A * gmap string FlowService.Row) a t :
  FlowService.catchAll message body = (Ok a, t) -> body = (Ok a, t).
Proof. destruct body as [[a'|e'] t']; simpl; intros H; [exact H|discriminate]. Qed.

(** X13. publishFlow reports every failure as the internal error "Failed to
    publish flow", an unknown flow id and a failed validation alike, and then
    leaves the table as it was. It succeeds exactly when the flow exists and
    passes the service's validateFlowStructure; it then sets is_published of
    that row, changes nothing else, and returns the flow, whose status still
    reads draft. *)
Theorem publishFlow_outcomes (flowId : string) (table : gmap string FlowService.Row) :
  match FlowService.publishFlow flowId table with
  | (Ok flow, table') =>
      exists row,
        table !! flowId = Some row
        /\ FlowService.validateFlowStructure (FlowService.mapRowToFlow flowId row) = Ok tt
        /\ table' = <[flowId := FlowService.set_published row]> table
        /\ flow = Some (FlowService.mapRowToFlow flowId (FlowService.set_published row))
  | (Throw e, table') =>
      e = internal "Failed to publish flow" /\ table' = table
      /\ (table !! flowId = None
          \/ exists row e',
               table !! flowId = Some row
               /\ FlowService.validateFlowStructure (FlowService.mapRowToFlow flowId row)
                  = Throw e')
  end.
Proof.
  unfold FlowService.publishFlow, FlowService.getFlowById.
  destruct (table !! flowId) as [row|] eqn:Hrow; simpl.
  - destruct (FlowService.validateFlowStructure _) as [[]|e'] eqn:Hv; simpl.
    + exists row. split; [reflexivity|]. split; [exact Hv|].
      assert (Ht : alter FlowService.set_published flowId table
                   = <[flowId := FlowService.set_published row]> table).
      { apply map_eq. intros j. destruct (decide (flowId = j)) as [->|Hne].
        - rewrite lookup_alter_eq, lookup_insert_eq, Hrow. reflexivity.
        - rewrite lookup_alter_ne, lookup_insert_ne by exact Hne. reflexivity. }
      rewrite Ht, lookup_insert_eq. auto.
    + split; [reflexivity|]. split; [reflexivity|]. right. eauto.
  - auto.
Qed.

(** ** The publish check *)

Lemma existsb_type ns t :
  existsb (fun n => String.eqb (node_type n) t) ns = true <-> 1 <= countType t ns.
Proof.
  unfold countType. induction ns as [|n ns IH]; simpl.
  - split; [discriminate|lia].
  - destruct (String.eqb (node_type n) t); simpl; [split; [lia|reflexivity]|exact IH].
Qed.

Lemma idExists_In ns o :
  FlowService.idExists ns o = true <-> exists i, o = Some i /\ In i (map node_id ns).
Proof.
  destruct o as [i|]; simpl.
  - change (existsb (fun n => String.eqb (node_id n) i) ns) with (hasNode ns i).
    rewrite hasNode_In. split; [eauto|]. intros (j & [= <-] & H). exact H.
  - split; [discriminate|]. intros (j & H & _). discriminate.
Qed.

Lemma checkConnections_ok ns cs :
  FlowService.checkConnections ns cs = Ok tt
  <-> forall c, In c cs ->
        FlowService.idExists ns (sourceId c) = true
        /\ FlowService.idExists ns (targetId c) = true.
Proof.
  induction cs as [|c cs IH]; simpl.
  - split; [intros _ c []|reflexivity].
  - destruct (FlowService.idExists ns (sourceId c)) eqn:Hs;
      destruct (FlowService.idExists ns (targetId c)) eqn:Ht; simpl.
    + rewrite IH. split.
      * intros H c' [<-|Hin]; auto.
      * intros H c' Hin. apply H. right. exact Hin.
    + split; [discriminate|]. intros H. destruct (H c (or_introl eq_refl)). congruence.
    + split; [discriminate|]. intros H. destruct (H c (or_introl eq_refl)). congruence.
    + split; [discriminate|]. intros H. destruct (H c (or_introl eq_refl)). congruence.
Qed.

Lemma publishCheck_iff (flow : FlowService.Flow) :
  FlowService.validateFlowStructure flow = Ok tt
  <-> 1 <= countType "start" (FlowService.nodes flow)
      /\ 1 <= countType "end" (FlowService.nodes flow)
      /\ NoDup (map node_id (FlowService.nodes flow))
      /\ forall c, In c (FlowService.connections flow) ->
           FlowService.idExists (FlowService.nodes flow) (sourceId c) = true
           /\ FlowService.idExists (FlowService.nodes flow) (targetId c) = true.
Proof.
  unfold FlowService.validateFlowStructure.
  destruct (Nat.eqb_spec (length (FlowService.nodes flow)) 0) as [H0|H0].
  { apply length_zero_iff_nil in H0. rewrite H0. split; [discriminate|].
    intros (H & _). unfold countType in H. simpl in H. lia. }
  destruct (existsb (fun n => String.eqb (node_type n) "start") (FlowService.nodes flow))
    eqn:Hs; simpl.
  2:{ split; [discriminate|]. intros (H & _). apply existsb_type in H. congruence. }
  destruct (existsb (fun n => String.eqb (node_type n) "end") (FlowService.nodes flow))
    eqn:He; simpl.
  2:{ split; [discriminate|]. intros (_ & H & _). apply existsb_type in H. congruence. }
  apply existsb_type in Hs, He.
  destruct (Nat.eqb_spec (length (map node_id (FlowService.nodes flow)))
              (size (list_to_set (map node_id (FlowService.nodes flow)) : gset string)))
    as [Hu|Hu]; simpl.
  - rewrite checkConnections_ok. split.
    + intros H. split; [exact Hs|]. split; [exact He|]. split; [|exact H].
      apply size_list_to_set_NoDup. symmetry. exact Hu.
    + intros (_ & _ & _ & H). exact H.
  - split; [discriminate|]. intros (_ & _ & H & _). exfalso. apply Hu.
    symmetry. apply size_list_to_set_NoDup. exact H.
Qed.

(** X14. What the publish check accepts. The service's validateFlowStructure
    passes exactly the flows with a start node, an end node, distinct node ids
    and connections whose sourceId and targetId are both present and both ids
    of nodes; a connection that lacks sourceId or targetId fails it. More than
    one start node and cycles are let through. *)
Theorem publish_check_accepts (flow : FlowService.Flow) :
  (FlowService.validateFlowStructure flow = Ok tt
   <-> 1 <= countType "start" (FlowService.nodes flow)
       /\ 1 <= countType "end" (FlowService.nodes flow)
       /\ NoDup (map node_id (FlowService.nodes flow))
       /\ forall c, In c (FlowService.connections flow) ->
            exists s t, sourceId c = Some s /\ targetId c = Some t
                        /\ In s (map node_id (FlowService.nodes flow))
                        /\ In t (map node_id (FlowService.nodes flow)))
  /\ (forall e, FlowService.validateFlowStructure flow = Throw e ->
        exists message, e = validation message).
Proof.
  split.
  - rewrite publishCheck_iff. split.
    + intros (H1 & H2 & H3 & H4). repeat split; auto.
      intros c Hc. destruct (H4 c Hc) as [Hs Ht].
      apply idExists_In in Hs, Ht. destruct Hs as (s & Hs & Hsi), Ht as (t & Ht & Hti).
      exists s, t. auto.
    + intros (H1 & H2 & H3 & H4). repeat split; auto;
        destruct (H4 c H) as (s & t & Hs & Ht & Hsi & Hti);
        apply idExists_In; eauto.
  - unfold FlowService.validateFlowStructure. intros e.
    repeat match goal with
           | |- context [if ?b then _ else _] => destruct b
           end; try (intros [= <-]; eauto).
    induction (FlowService.connections flow) as [|c cs IH]; simpl; [discriminate|].
    destruct (negb _ || negb _); [intros [= <-]; eauto|exact IH].
Qed.

(** X15. The publish check is the weaker of the two validators. When the two
    pairs of endpoint fields of every stored connection agree, a flow that
    validateFlowStructure of utils/validation.ts finds valid also passes the
    service's validateFlowStructure. *)
Theorem valid_structure_passes_publish_check (flow : FlowService.Flow)
    (r : ValidationResult) :
  (forall c, In c (FlowService.connections flow) -> endpointsAgree c) ->
  validateFlowStructure (FlowService.nodes flow)
    (map engineFields (FlowService.connections flow)) = Some r ->
  isValid r = true ->
  FlowService.validateFlowStructure flow = Ok tt.
Proof.
  intros Hagree Hv Hvalid.
  destruct (hasCircularDependency_decides (FlowService.nodes flow)
              (map engineFields (FlowService.connections flow))) as (cyclic & Hc & _).
  unfold validateFlowStructure in Hv. rewrite Hc in Hv. injection Hv as <-.
  simpl in Hvalid. apply Nat.eqb_eq, length_zero_iff_nil in Hvalid.
  apply app_nil in Hvalid. destruct Hvalid as [H1 Hvalid].
  apply app_nil in Hvalid. destruct Hvalid as [H2 Hvalid].
  apply app_nil in Hvalid. destruct Hvalid as [H3 Hvalid].
  apply app_nil in Hvalid. destruct Hvalid as [H4 _].
  apply publishCheck_iff.
  destruct (startErrors_cases (FlowService.nodes flow))
    as [[_ Hs]|[[_ Hs]|[Hs _]]]; [congruence|congruence|].
  destruct (endErrors_cases (FlowService.nodes flow)) as [[_ He]|[He _]]; [congruence|].
  destruct (idErrors_cases (FlowService.nodes flow)) as [[_ Hi]|[Hi _]]; [congruence|].
  split; [lia|]. split; [exact He|]. split; [exact Hi|].
  intros c Hin. destruct (Hagree c Hin) as [Hs' Ht'].
  assert (Hce : connectionErrors (FlowService.nodes flow) (engineFields c) = []).
  { apply (proj1 (flat_map_nil _ _) H4). apply in_map. exact Hin. }
  apply connectionErrors_nil in Hce. destruct Hce as [Hsi Hti].
  rewrite Hs', Ht'. split; apply idExists_In; eauto.
Qed.

Lemma valid_structure_passes_publish_check_witness :
  FlowService.validateFlowStructure (FlowService.mapRowToFlow "f1" publishedRow) = Ok tt.
Proof.
  apply (valid_structure_passes_publish_check
           (FlowService.mapRowToFlow "f1" publishedRow)
           {| isValid := true; errors := [] |}).
  - intros c [<-|[]]. split; reflexivity.
  - vm_compute. reflexivity.
  - reflexivity.
Defined.

(** ** Creating, updating and duplicating flows *)

(** X16. Create then read. With a fresh id createFlow stores the flow and
    getFlowById reads back the very flow that createFlow returned: an
    unpublished, unarchived draft of version 1 with the given nodes,
    connections and variables (empty lists and the empty object when they are
    missing); no other row changes. With an id that is taken it fails with
    "Failed to create flow" and writes nothing. *)
Theorem createFlow_then_getFlowById (data : FlowService.CreateData) (uuid : string)
    (table : gmap string FlowService.Row) :
  match table !! uuid with
  | Some _ =>
      FlowService.createFlow data uuid table
      = (Throw (internal "Failed to create flow"), table)
  | None =>
      exists flow table',
        FlowService.createFlow data uuid table = (Ok flow, table')
        /\ FlowService.getFlowById uuid table' = Some flow
        /\ FlowService.id flow = uuid
        /\ FlowService.isPublished flow = false
        /\ FlowService.isArchived flow = false
        /\ FlowService.version flow = 1%Z
        /\ FlowService.status flow = "draft"
        /\ FlowService.nodes flow
           = match FlowService.new_nodes data with Some ns => ns | None => [] end
        /\ FlowService.connections flow
           = match FlowService.new_connections data with Some cs => cs | None => [] end
        /\ FlowService.variables flow
           = match FlowService.new_variables data with
             | Some vs => vs
             | None => VarsRecord []
             end
        /\ forall j, j <> uuid -> table' !! j = table !! j
  end.
Proof.
  unfold FlowService.createFlow.
  destruct (table !! uuid) eqn:Hu; simpl; [reflexivity|].
  do 2 eexists. split; [reflexivity|]. split.
  { unfold FlowService.getFlowById. rewrite lookup_insert_eq. reflexivity. }
  simpl. repeat split.
  intros j Hj. rewrite lookup_insert_ne by congruence. reflexivity.
Qed.

(** X17. updateFlow never validates and never touches the publication
    state. For an existing flow and a request of the declared type (a field
    is a value of its type or is missing) it always succeeds, whatever the
    nodes and connections: each of the seven fields name, description,
    category, nodes, connections, variables and settings is replaced by the
    one given in the request and keeps its stored value when the request does
    not give it; is_published, is_archived and version stay as they were, the
    status reads draft, the flow returned is the one stored, and no other row
    changes. For an unknown id it fails with "Failed to update flow" and
    writes nothing. *)
Theorem updateFlow_outcomes (flowId : string) (data : FlowService.UpdateData)
    (table : gmap string FlowService.Row) :
  match table !! flowId with
  | None =>
      FlowService.updateFlow flowId data table
      = (Throw (internal "Failed to update flow"), table)
  | Some row =>
      exists flow table',
        FlowService.updateFlow flowId data table = (Ok (Some flow), table')
        /\ FlowService.getFlowById flowId table' = Some flow
        /\ FlowService.id flow = flowId
        /\ FlowService.name flow
           = match FlowService.upd_name data with
             | Some n => n
             | None => FlowService.col_name row
             end
        /\ FlowService.description flow
           = match FlowService.upd_description data with
             | Some d => Some d
             | None => FlowService.col_description row
             end
        /\ FlowService.category flow
           = match FlowService.upd_category data with
             | Some c => c
             | None => FlowService.col_category row
             end
        /\ FlowService.nodes flow
           = match FlowService.upd_nodes data with
             | Some ns => ns
             | None => FlowService.col_nodes row
             end
        /\ FlowService.connections flow
           = match FlowService.upd_connections data with
             | Some cs => cs
             | None => FlowService.col_connections row
             end
        /\ FlowService.variables flow
           = match FlowService.upd_variables data with
             | Some vs => vs
             | None => FlowService.col_variables row
             end
        /\ FlowService.settings flow
           = match FlowService.upd_settings data with
             | Some v => v
             | None => FlowService.col_settings row
             end
        /\ FlowService.isPublished flow = FlowService.col_is_published row
        /\ FlowService.isArchived flow = FlowService.col_is_archived row
        /\ FlowService.version flow = FlowService.col_version row
        /\ FlowService.status flow = "draft"
        /\ forall j, j <> flowId -> table' !! j = table !! j
  end.
Proof.
  unfold FlowService.updateFlow, FlowService.getFlowById.
  destruct (table !! flowId) as [row|] eqn:Hrow; simpl; [|reflexivity].
  rewrite lookup_alter_eq, Hrow. simpl.
  do 2 eexists. split; [reflexivity|]. split.
  { rewrite lookup_alter_eq, Hrow. reflexivity. }
  simpl. repeat split.
  intros j Hj. rewrite lookup_alter_ne by congruence. reflexivity.
Qed.

(** X18. duplicateFlow makes an unpublished copy. For an existing flow and a
    fresh id it stores, under the fresh id, a flow with the original's nodes,
    connections, variables, description and category, named as requested or
    "<name> (Copy)" when no name (or the empty name) is given; the copy is an
    unpublished, unarchived draft of version 1 even when the original is
    published, and the original row is left as it is. *)
Theorem duplicateFlow_outcomes (flowId : string) (newName : option string)
    (uuid : string) (table : gmap string FlowService.Row) (row : FlowService.Row) :
  table !! flowId = Some row ->
  table !! uuid = None ->
  exists flow table',
    FlowService.duplicateFlow flowId newName uuid table = (Ok flow, table')
    /\ FlowService.getFlowById uuid table' = Some flow
    /\ FlowService.nodes flow = FlowService.col_nodes row
    /\ FlowService.connections flow = FlowService.col_connections row
    /\ FlowService.variables flow = FlowService.col_variables row
    /\ FlowService.description flow = FlowService.col_description row
    /\ FlowService.category flow = FlowService.col_category row
    /\ FlowService.name flow
       = match newName with
         | Some n => if String.eqb n "" then FlowService.col_name row ++ " (Copy)" else n
         | None => FlowService.col_name row ++ " (Copy)"
         end
    /\ FlowService.isPublished flow = false
    /\ FlowService.isArchived flow = false
    /\ FlowService.version flow = 1%Z
    /\ table' !! flowId = Some row
    /\ forall j, j <> uuid -> table' !! j = table !! j.
Proof.
  intros Hrow Hfresh.
  unfold FlowService.duplicateFlow, FlowService.getFlowById,
    FlowService.createFlow.
  rewrite Hrow. simpl. rewrite Hfresh. simpl.
  do 2 eexists. split; [reflexivity|]. split.
  { rewrite lookup_insert_eq. reflexivity. }
  simpl. repeat split.
  - rewrite lookup_insert_ne; [exact Hrow|]. intros ->. congruence.
  - intros j Hj. rewrite lookup_insert_ne by congruence. reflexivity.
Qed.

Lemma duplicateFlow_outcomes_witness :
  exists flow table',
    FlowService.duplicateFlow "f1" None "f2" tableWithPublished = (Ok flow, table')
    /\ FlowService.name flow = "demo (Copy)"
    /\ FlowService.isPublished flow = false
    /\ table' !! "f1" = Some publishedRow.
Proof.
  destruct (duplicateFlow_outcomes "f1" None "f2" tableWithPublished publishedRow
              eq_refl eq_refl)
    as (flow & table' & Heq & _ & _ & _ & _ & _ & _ & Hn & Hp & _ & _ & Ho & _).
  exists flow, table'. split; [exact Heq|]. split; [exact Hn|]. split; [exact Hp|exact Ho].
Defined.

(** * Properties of the rate limiter *)

(** X19. A stored count lives for one ttl. After set at time now, get returns
    the stored count at every reading up to and including now + ttl and
    changes nothing; at any later reading it returns null and deletes the
    entry; entries under other keys are not affected by the set. *)
Theorem stored_count_lives_one_ttl (now later : Z) (key key' : string)
    (value ttl : Z) (store : gmap string RateLimiter.Entry) :
  ((later <= now + ttl)%Z ->
   RateLimiter.get later key (RateLimiter.set now key value ttl store)
   = (Some value, RateLimiter.set now key value ttl store))
  /\ ((now + ttl < later)%Z ->
      RateLimiter.get later key (RateLimiter.set now key value ttl store)
      = (None, delete key store))
  /\ (key' <> key ->
      fst (RateLimiter.get later key' (RateLimiter.set now key value ttl store))
      = fst (RateLimiter.get later key' store)).
Proof.
  unfold RateLimiter.get, RateLimiter.set. split; [|split].
  - intros H. rewrite lookup_insert_eq. simpl.
    destruct (Z.ltb_spec (now + ttl) later); [lia|reflexivity].
  - intros H. rewrite lookup_insert_eq. simpl.
    destruct (Z.ltb_spec (now + ttl) later); [|lia].
    rewrite delete_insert_eq. reflexivity.
  - intros Hne. rewrite lookup_insert_ne by congruence.
    destruct (store !! key') as [e|]; [|reflexivity].
    destruct (RateLimiter.expiry e <? later)%Z; reflexivity.
Qed.

Lemma increment_live now1 now2 key ttl store e :
  store !! key = Some e ->
  (now1 <= RateLimiter.expiry e)%Z ->
  RateLimiter.increment now1 now2 key ttl store
  = ((RateLimiter.count e + 1)%Z,
     RateLimiter.set now2 key (RateLimiter.count e + 1) ttl store).
Proof.
  intros He Hlive. unfold RateLimiter.increment, RateLimiter.get. rewrite He.
  destruct (Z.ltb_spec (RateLimiter.expiry e) now1); [lia|].
  destruct (Z.eqb_spec (RateLimiter.count e) 0) as [->|]; reflexivity.
Qed.

Lemma increment_fresh now1 now2 key ttl store :
  store !! key = None ->
  RateLimiter.increment now1 now2 key ttl store
  = (1%Z, RateLimiter.set now2 key 1 ttl store).
Proof.
  intros He. unfold RateLimiter.increment, RateLimiter.get, RateLimiter.set.
  rewrite He. simpl. f_equal. apply map_eq. intros j.
  destruct (decide (key = j)) as [->|Hne].
  - rewrite !lookup_insert_eq. reflexivity.
  - rewrite !lookup_insert_ne, lookup_delete_ne by exact Hne. reflexivity.
Qed.

Lemma serve_live options key : forall requests store c previous,
  store !! key = Some {| RateLimiter.count := c;
                         RateLimiter.expiry := (previous + RateLimiter.windowMs options)%Z |} ->
  RateLimiter.withinWindow (RateLimiter.windowMs options) previous requests ->
  fst (RateLimiter.serve options key requests store)
  = decisionsFrom options c (length requests)
  /\ (RateLimiter.count <$> snd (RateLimiter.serve options key requests store) !! key)
     = Some (c + Z.of_nat (length requests))%Z.
Proof.
  induction requests as [|[now1 now2] rest IH]; intros store c previous Hc Hw.
  - simpl. rewrite Hc. simpl. split; [reflexivity|]. f_equal. lia.
  - destruct Hw as [Hnow Hw].
    cbn [RateLimiter.serve]. unfold RateLimiter.middleware.
    rewrite (increment_live now1 now2 key _ store _ Hc Hnow). cbn [RateLimiter.count].
    specialize (IH (RateLimiter.set now2 key (c + 1) (RateLimiter.windowMs options) store)
                   (c + 1)%Z now2).
    destruct IH as [IH1 IH2].
    { unfold RateLimiter.set. rewrite lookup_insert_eq. reflexivity. }
    { exact Hw. }
    destruct (RateLimiter.maxRequests options <? c + 1)%Z eqn:Hm;
      destruct (RateLimiter.serve options key rest _) as [decisions store''];
      simpl in IH1, IH2; simpl; rewrite IH1, IH2; unfold decisionAt; rewrite Hm;
      (split; [reflexivity|f_equal; lia]).
Qed.

Lemma nth_decisionsFrom options : forall n from i d,
  nth_error (decisionsFrom options from n) i = Some d ->
  d = decisionAt options (from + Z.of_nat (S i)).
Proof.
  induction n as [|n IH]; intros from i d H; [destruct i; discriminate|].
  destruct i as [|i]; simpl in H.
  - injection H as <-. f_equal.
  - apply IH in H. rewrite H. f_equal. lia.
Qed.

(** X20. A burst is admitted up to maxRequests. For a key that is not in the
    store, when every request of a burst arrives no later than one window
    after the request before it was counted, the request counted as number i
    is passed on exactly when i <= maxRequests and is otherwise answered with
    tooManyRequests; X-RateLimit-Remaining is max(0, maxRequests - i); and
    the store ends with the number of requests as the key's count, rejected
    requests included. *)
Theorem burst_is_admitted_up_to_maxRequests (options : RateLimiter.Options)
    (key : string) (now1 now2 : Z) (rest : list (Z * Z))
    (store : gmap string RateLimiter.Entry) :
  store !! key = None ->
  RateLimiter.withinWindow (RateLimiter.windowMs options) now2 rest ->
  let decisions := fst (RateLimiter.serve options key ((now1, now2) :: rest) store) in
  let store' := snd (RateLimiter.serve options key ((now1, now2) :: rest) store) in
  length decisions = S (length rest)
  /\ (forall i headers decision,
        nth_error decisions i = Some (headers, decision) ->
        RateLimiter.remaining headers
        = Z.max 0 (RateLimiter.maxRequests options - Z.of_nat (S i))
        /\ (decision = Ok tt <-> (Z.of_nat (S i) <= RateLimiter.maxRequests options)%Z)
        /\ (decision = Ok tt
            \/ decision = Throw (tooManyRequests (RateLimiter.message options))))
  /\ (RateLimiter.count <$> store' !! key) = Some (Z.of_nat (S (length rest))).
Proof.
  intros Hfresh Hw.
  assert (Hall : fst (RateLimiter.serve options key ((now1, now2) :: rest) store)
                 = decisionsFrom options 0 (S (length rest))
                 /\ (RateLimiter.count <$>
                       snd (RateLimiter.serve options key ((now1, now2) :: rest) store)
                       !! key)
                    = Some (Z.of_nat (S (length rest)))).
  { cbn [RateLimiter.serve]. unfold RateLimiter.middleware.
    rewrite (increment_fresh now1 now2 key _ store Hfresh).
    destruct (serve_live options key rest
                (RateLimiter.set now2 key 1 (RateLimiter.windowMs options) store)
                1%Z now2) as [H1 H2].
    { unfold RateLimiter.set. rewrite lookup_insert_eq. reflexivity. }
    { exact Hw. }
    change (decisionsFrom options 0 (S (length rest)))
      with (decisionAt options (0 + 1) :: decisionsFrom options (0 + 1) (length rest)).
    change (0 + 1)%Z with 1%Z. unfold decisionAt.
    destruct (RateLimiter.maxRequests options <? 1)%Z; cbv beta iota;
      destruct (RateLimiter.serve options key rest _) as [decisions store''];
      cbn [fst snd] in *; rewrite H1, H2; (split; [reflexivity|f_equal; lia]). }
  destruct Hall as [Hd Hc]. cbv zeta. rewrite Hd. split; [|split; [|exact Hc]].
  - clear. generalize 0%Z. induction (S (length rest)) as [|n IH]; intros z;
      simpl; [reflexivity|]. rewrite IH. reflexivity.
  - intros i headers decision Hn. apply nth_decisionsFrom in Hn.
    unfold decisionAt in Hn. injection Hn as -> ->. simpl.
    split; [f_equal; lia|].
    destruct (Z.ltb_spec (RateLimiter.maxRequests options) (0 + Z.of_nat (S i))).
    + split; [|auto]. split; [discriminate|lia].
    + split; [|auto]. split; [lia|reflexivity].
Qed.

Lemma burst_is_admitted_up_to_maxRequests_witness :
  map snd (fst (RateLimiter.serve strictOptions "ip" [(0, 1); (5, 6); (60006, 60007)]%Z ∅))
  = [Ok tt; Ok tt;
     Throw (tooManyRequests "Rate limit exceeded, please try again later")]
  /\ length (fst (RateLimiter.serve strictOptions "ip"
                    [(0, 1); (5, 6); (60006, 60007)]%Z ∅)) = 3.
Proof.
  split; [vm_compute; reflexivity|].
  apply (burst_is_admitted_up_to_maxRequests strictOptions "ip" 0 1
           [(5, 6); (60006, 60007)]%Z ∅).
  - reflexivity.
  - simpl. lia.
Defined.

Lemma cleanup_lookup now key (store : gmap string RateLimiter.Entry) :
  RateLimiter.cleanup now store !! key
  = match store !! key with
    | Some e => if (RateLimiter.expiry e <? now)%Z then None else Some e
    | None => None
    end.
Proof.
  unfold RateLimiter.cleanup.
  destruct (store !! key) as [e|] eqn:He.
  - destruct (Z.ltb_spec (RateLimiter.expiry e) now) as [Hlt|Hge].
    + apply map_lookup_filter_None. right. intros e' He'. simpl.
      rewrite He in He'. injection He' as <-. lia.
    + apply map_lookup_filter_Some. split; [exact He|]. simpl. lia.
  - apply map_lookup_filter_None. left. exact He.
Qed.

(** X21. cleanup removes exactly the expired entries and cannot be observed
    through get. An entry survives cleanup at time now exactly when its
    expiry is not before now; and at any reading that is not earlier than the
    cleanup, get returns the same count with the cleanup as without it. *)
Theorem cleanup_is_unobservable (now later : Z) (key : string)
    (store : gmap string RateLimiter.Entry) :
  (now <= later)%Z ->
  (forall e, RateLimiter.cleanup now store !! key = Some e
             <-> store !! key = Some e /\ (now <= RateLimiter.expiry e)%Z)
  /\ fst (RateLimiter.get later key (RateLimiter.cleanup now store))
     = fst (RateLimiter.get later key store).
Proof.
  intros Hle. split.
  - intros e. rewrite cleanup_lookup. destruct (store !! key) as [e'|].
    + destruct (Z.ltb_spec (RateLimiter.expiry e') now); split.
      * discriminate.
      * intros [[= ->] H']. lia.
      * intros [= ->]. auto.
      * intros [H' _]. exact H'.
    + split; [discriminate|]. intros [H' _]. discriminate.
  - unfold RateLimiter.get. rewrite cleanup_lookup.
    destruct (store !! key) as [e|]; [|reflexivity].
    destruct (Z.ltb_spec (RateLimiter.expiry e) now) as [Hlt|Hge].
    + destruct (Z.ltb_spec (RateLimiter.expiry e) later); [reflexivity|lia].
    + destruct (RateLimiter.expiry e <? later)%Z; reflexivity.
Qed.

Lemma cleanup_is_unobservable_witness :
  fst (RateLimiter.get 20 "ip"
         (RateLimiter.cleanup 10 (RateLimiter.set 0 "ip" 3 5 ∅)))
  = fst (RateLimiter.get 20 "ip" (RateLimiter.set 0 "ip" 3 5 ∅)).
Proof.
  apply (cleanup_is_unobservable 10 20 "ip" (RateLimiter.set 0 "ip" 3 5 ∅)). lia.
Defined.

(** X22. The skip handler does not give the request back. When the response
    status is one to skip and the key's entry is still live, the handler's
    increment followed by its set of the new count minus one leaves the count
    where it was (a negative count becomes 0) and only moves the expiry to one
    window after its last clock reading; no other key changes. When the
    status is not one to skip, the store is left alone. *)
Theorem skip_handler_keeps_the_count (options : RateLimiter.Options)
    (statusCode now1 now2 now3 : Z) (key : string)
    (store : gmap string RateLimiter.Entry) (e : RateLimiter.Entry) :
  store !! key = Some e ->
  (now1 <= RateLimiter.expiry e)%Z ->
  let skip :=
    ((statusCode <? 400)%Z && RateLimiter.skipSuccessfulRequests options)
    || ((400 <=? statusCode)%Z && RateLimiter.skipFailedRequests options) in
  let store' := RateLimiter.afterSend options statusCode now1 now2 now3 key store in
  (skip = true ->
   store' !! key
   = Some {| RateLimiter.count := Z.max 0 (RateLimiter.count e);
             RateLimiter.expiry := (now3 + RateLimiter.windowMs options)%Z |}
   /\ forall j, j <> key -> store' !! j = store !! j)
  /\ (skip = false -> store' = store).
Proof.
  intros He Hlive skip store'. subst skip store'. unfold RateLimiter.afterSend.
  destruct ((statusCode <? 400)%Z && RateLimiter.skipSuccessfulRequests options
            || (400 <=? statusCode)%Z && RateLimiter.skipFailedRequests options).
  - split; [|discriminate]. intros _.
    rewrite (increment_live now1 now2 key _ store e He Hlive).
    unfold RateLimiter.set. split.
    + rewrite lookup_insert_eq. do 2 f_equal. lia.
    + intros j Hj. rewrite !lookup_insert_ne by congruence. reflexivity.
  - split; [discriminate|reflexivity].
Qed.

Lemma skip_handler_keeps_the_count_witness :
  RateLimiter.afterSend strictOptions 200 10 11 12 "ip" (RateLimiter.set 0 "ip" 2 60000 ∅)
    !! "ip"
  = Some {| RateLimiter.count := 2; RateLimiter.expiry := 60012 |}.
Proof.
  apply (skip_handler_keeps_the_count strictOptions 200 10 11 12 "ip"
           (RateLimiter.set 0 "ip" 2 60000 ∅)
           {| RateLimiter.count := 2; RateLimiter.expiry := 60000 |}).
  - reflexivity.
  - simpl. lia.
  - reflexivity.
Defined.

(** * Properties of getExecutionLogs *)

Lemma chunks_concat {A} (k : nat) : forall (n : nat) (l : list A),
  0 < k -> length l <= n * k ->
  concat (map (fun i => take k (drop (i * k) l)) (seq 0 n)) = l.
Proof.
  induction n as [|n IH]; intros l Hk Hlen.
  - simpl in *. destruct l; [reflexivity|simpl in Hlen; lia].
  - change (seq 0 (S n)) with (0 :: seq 1 n). rewrite <- seq_shift.
    cbn [map concat]. rewrite List.map_map, drop_0.
    transitivity (app (take k l) (drop k l)); [|apply take_drop]. f_equal.
    assert (Hrest : length (drop k l) <= n * k)
      by (rewrite length_drop; simpl in Hlen; lia).
    etransitivity; [|exact (IH (drop k l) Hk Hrest)].
    f_equal. apply map_ext. intros i. rewrite drop_drop. f_equal; try f_equal; lia.
Qed.

Lemma ceilDiv_bounds (t l : Z) :
  (0 <= t)%Z -> (1 <= l)%Z ->
  exists q, ceilDiv t l = Some q /\ (0 <= q)%Z /\ (t <= q * l)%Z /\ ((q - 1) * l < t \/ t = 0 /\ q = 0)%Z.
Proof.
  intros Ht Hl. unfold ceilDiv.
  destruct (Z.eqb_spec l 0); [lia|].
  eexists. split; [reflexivity|].
  pose proof (Z.div_mod (- t) l ltac:(lia)) as Hdm.
  pose proof (Z.mod_pos_bound (- t) l ltac:(lia)) as Hb.
  nia.
Qed.

(** X23. getExecutionLogs pages the log of one execution without loss or
    repetition: for a limit of at least 1, every page from 1 on reports the
    same total (the number of lines of that execution, of the wanted level if
    one is given) and the same totalPages, holds at most [limit] lines and is
    empty past totalPages; pages 1 .. totalPages put one after the other are
    exactly the matching lines, in the order they were written. *)
Theorem log_pages_partition (executionId : string) (wanted : option string)
    (lim : Z) (w : World) :
  (1 <= lim)%Z ->
  let rows := List.filter (logMatches executionId wanted) (execution_logs w) in
  let get := fun p => getExecutionLogs executionId (pageQuery p lim wanted) w in
  exists n : nat,
    (forall p, (1 <= p)%Z ->
       total (get p) = Z.of_nat (length rows)
       /\ totalPages (get p) = Some (Z.of_nat n)
       /\ (Z.of_nat (length (items (get p))) <= lim)%Z
       /\ ((Z.of_nat n < p)%Z -> items (get p) = []))
    /\ concat (map (fun i => items (get (Z.of_nat (S i)))) (seq 0 n)) = rows.
Proof.
  intros Hlim rows get.
  destruct (ceilDiv_bounds (Z.of_nat (length rows)) lim ltac:(lia) Hlim)
    as (q & Hq & Hq0 & Hup & Hlow).
  assert (Hitems : forall p, (1 <= p)%Z ->
            items (get p) = take (Z.to_nat lim) (drop (Z.to_nat (p - 1) * Z.to_nat lim) rows)).
  { intros p Hp. unfold get, getExecutionLogs, pageQuery, limitOffset.
    cbn [q_page q_limit q_level items]. fold rows.
    destruct (Z.ltb_spec lim 0); [lia|].
    rewrite Z2Nat.inj_mul by lia. reflexivity. }
  exists (Z.to_nat q). split.
  - intros p Hp. split; [reflexivity|]. split.
    { unfold get, getExecutionLogs. cbn [totalPages pageQuery q_limit q_level].
      fold rows. rewrite Hq. f_equal. lia. }
    rewrite (Hitems p Hp). split.
    + rewrite length_take. lia.
    + intros Hpast. rewrite drop_ge; [apply take_nil|]. nia.
  - etransitivity;
      [|exact (chunks_concat (Z.to_nat lim) (Z.to_nat q) rows ltac:(lia) ltac:(nia))].
    f_equal. apply map_ext. intros i. rewrite Hitems by lia.
    do 3 f_equal. lia.
Qed.

Lemma log_pages_partition_witness :
  exists n : nat,
    (forall p, (1 <= p)%Z ->
       total (getExecutionLogs "e1" (pageQuery p 2 None) worldWithLogs)
         = Z.of_nat (length (List.filter (logMatches "e1" None) (execution_logs worldWithLogs)))
       /\ totalPages (getExecutionLogs "e1" (pageQuery p 2 None) worldWithLogs)
            = Some (Z.of_nat n)
       /\ (Z.of_nat (length (items (getExecutionLogs "e1" (pageQuery p 2 None) worldWithLogs))) <= 2)%Z
       /\ ((Z.of_nat n < p)%Z ->
            items (getExecutionLogs "e1" (pageQuery p 2 None) worldWithLogs) = []))
    /\ concat (map (fun i => items (getExecutionLogs "e1"
                                     (pageQuery (Z.of_nat (S i)) 2 None) worldWithLogs))
                   (seq 0 n))
       = List.filter (logMatches "e1" None) (execution_logs worldWithLogs).
Proof.
  apply (log_pages_partition "e1" None 2 worldWithLogs). lia.
Defined.
